(** * Goddard / Zermelo interior-point optimal control: problem contracts and
      continuation driver

    Shallow embedding of

    - [src/Zermelo/ZermeloPrimalOCP.py]: the Zermelo navigation problem
      contract (class [ZermeloPrimalOCP]);
    - [src/python/main_goddard_primal_dual_casadi.py]: the continuation
      driver [main_primal_dual].

    Numbers.  The Python code computes with binary64 floats.  The contract
    functions are embedded over the real numbers, which is the setting in
    which "analytic derivative" has a meaning; the decimal literals of the
    source ([.2], [2.5], ...) denote the corresponding decimal fractions.
    The driver is embedded over the rationals, which keeps it executable:
    with the constants of the source its [eps] takes the values [2^-k],
    which binary64 holds exactly, and [1e-10], like its binary64 rounding,
    lies strictly between [2^-34] and [2^-33], so that the tests
    [eps <= tol] come out the same. *)

From Stdlib Require Import String.
From Stdlib Require Import Reals Lra Lia ZArith QArith Qpower Qreals Bool List Sorted.
Import ListNotations.

(** ** The fragment of numpy used by the contract *)

Module Numpy.

Section Arrays.
Context {A : Type}.

(** [np.zeros(n)] / [np.full(n, v)] for a one-dimensional shape. *)
Definition full (n : nat) (v : A) : list A := repeat v n.

(** [np.full_like(a, v)]. *)
Definition full_like {B : Type} (a : list B) (v : A) : list A :=
  full (length a) v.

(** [np.full((rows, cols), v)]: a matrix is the list of its rows. *)
Definition full2 (rows cols : nat) (v : A) : list (list A) :=
  repeat (full cols v) rows.

(** [a[lo:hi]] for [0 <= lo <= hi]; as in Python the slice is clipped to
    the array. *)
Definition slice (lo hi : nat) (a : list A) : list A :=
  firstn (hi - lo) (skipn lo a).

(** [a[-1]]: raises [IndexError] on an empty array. *)
Definition get_last (a : list A) : option A :=
  match a with
  | [] => None
  | x :: a' => Some (last a' x)
  end.

(** [a[i] = v] for [0 <= i]: raises [IndexError] when [i] is out of
    range. *)
Fixpoint set_at (i : nat) (v : A) (a : list A) : option (list A) :=
  match a, i with
  | [], _ => None
  | _ :: a', O => Some (v :: a')
  | x :: a', S i' =>
      match set_at i' v a' with
      | Some r => Some (x :: r)
      | None => None
      end
  end.

(** [a[-1] = v]. *)
Definition set_last (v : A) (a : list A) : option (list A) :=
  match a with
  | [] => None
  | _ => set_at (length a - 1) v a
  end.

(** [a[lo:hi] = v] with [v] an array: the shapes must agree (the
    broadcast of a one-element [v] is not used by the source). *)
Definition set_slice (lo hi : nat) (v a : list A) : option (list A) :=
  if Nat.eqb (length (slice lo hi a)) (length v)
  then Some (firstn lo a ++ v ++ skipn (lo + length v) a)
  else None.
End Arrays.

Local Open Scope R_scope.

Definition zeros (n : nat) : list R := full n 0.
Definition zeros_like {B : Type} (a : list B) : list R := full_like a 0.
Definition zeros2 (rows cols : nat) : list (list R) := full2 rows cols 0.

(** [u - v] on one-dimensional arrays, with numpy's broadcasting of a
    one-element operand; any other shape mismatch raises [ValueError]. *)
Definition vsub (u v : list R) : option (list R) :=
  if Nat.eqb (length u) (length v) then Some (map (fun p => fst p - snd p) (combine u v))
  else match u, v with
       | [x], _ => Some (map (fun y => x - y) v)
       | _, [y] => Some (map (fun x => x - y) u)
       | _, _ => None
       end.

(** [np.eye(n)]. *)
Definition eye (n : nat) : list (list R) :=
  map (fun i => map (fun j => if Nat.eqb i j then 1 else 0) (seq 0 n)) (seq 0 n).

(** Row-wise [row[c0:c1] = b] over the rows of a block. *)
Fixpoint set_rows (c0 c1 : nat) (rows blk : list (list R))
  : option (list (list R)) :=
  match rows, blk with
  | [], _ => Some []
  | row :: rows', b :: blk' =>
      match set_slice c0 c1 b row, set_rows c0 c1 rows' blk' with
      | Some row', Some rest => Some (row' :: rest)
      | _, _ => None
      end
  | _ :: _, [] => None
  end.

(** [m[r0:r1, c0:c1] = blk]: the block must have the shape of the slice. *)
Definition set_block (r0 r1 c0 c1 : nat) (blk m : list (list R))
  : option (list (list R)) :=
  let rows := slice r0 r1 m in
  if Nat.eqb (length rows) (length blk)
  then match set_rows c0 c1 rows blk with
       | Some new => Some (firstn r0 m ++ new ++ skipn (r0 + length blk) m)
       | None => None
       end
  else None.

(** [m[i, -1] = v]. *)
Definition set_entry_last (i : nat) (v : R) (m : list (list R))
  : option (list (list R)) :=
  match nth_error m i with
  | Some row =>
      match set_last v row with
      | Some row' => set_at i row' m
      | None => None
      end
  | None => None
  end.

(** [m[i] = row]: assignment of a whole row, shapes must agree. *)
Definition set_row (i : nat) (row : list R) (m : list (list R))
  : option (list (list R)) :=
  match nth_error m i with
  | Some old => if Nat.eqb (length old) (length row) then set_at i row m else None
  | None => None
  end.

(** [m[i] = v] with [v] a scalar, broadcast along the row. *)
Definition fill_row (i : nat) (v : R) (m : list (list R))
  : option (list (list R)) :=
  match nth_error m i with
  | Some old => set_at i (full_like old v) m
  | None => None
  end.

(** [m[-1] = v] with [v] a scalar. *)
Definition fill_last_row (v : R) (m : list (list R)) : option (list (list R)) :=
  match m with
  | [] => None
  | _ => fill_row (length m - 1) v m
  end.

(** [np.linspace(start, stop, num)] for [num >= 2]: [num] evenly spaced
    samples, the first at [start] and the last at [stop]. *)
Definition linspace (start stop : R) (num : nat) : list R :=
  let step := (stop - start) / INR (num - 1) in
  map (fun i => start + INR i * step) (seq 0 num).

End Numpy.

(** Python raises on an ill-shaped array operation; in the embedding such a
    call returns [None] and the rest of the function is skipped. *)
Notation "x <- e ;; k" :=
  (match e with Some x => k | None => None end)
  (at level 61, e at next level, right associativity).

(** ** src/Zermelo/ZermeloPrimalOCP.py *)

Module ZermeloPrimalOCP.
Import Numpy.
Local Open Scope R_scope.

(** The attributes set by [__init__]. *)
Record t : Type := mk {
  a : R; b : R; a1 : R; a2 : R; r : R;
  xfinal : list R; x0 : list R;
  phi0 : R; theta0 : R; gamma0 : R; psi0 : R;
  center : list R;
  u1max : R; u1min : R; u0max : R; u0min : R;
  eps : R
}.

(** [self.xfinal[i]], [self.center[i]], ...: the attribute lists are built
    by [__init__] with two entries each. *)
Definition item (l : list R) (i : nat) : R := nth i l 0.

(** [ZermeloPrimalOCP.__init__]. *)
Definition init : t :=
  let xfinal := [20; 1] in
  {| a := 0; b := 1; a1 := 2; a2 := 0.1; r := 2;
     xfinal := xfinal; x0 := zeros 2;
     phi0 := 0; theta0 := 0; gamma0 := -1; psi0 := 90;
     center := [item xfinal 0 / 2; item xfinal 1 / 2.5];
     u1max := 1; u1min := 0; u0max := PI * 2; u0min := 0;
     eps := 1 |}.

(** [ZermeloPrimalOCP.set_eps]. *)
Definition set_eps (self : t) (e : R) : t :=
  {| a := a self; b := b self; a1 := a1 self; a2 := a2 self; r := r self;
     xfinal := xfinal self; x0 := x0 self;
     phi0 := phi0 self; theta0 := theta0 self; gamma0 := gamma0 self;
     psi0 := psi0 self; center := center self;
     u1max := u1max self; u1min := u1min self;
     u0max := u0max self; u0min := u0min self;
     eps := e |}.

(** [ZermeloPrimalOCP.initialize]: returns [(time, xp, z)]. *)
Definition initialize (self : t)
  : option (list R * list (list R) * list (list R)) :=
  let n := 101%nat in
  let time := linspace 0 1 n in
  let xp := zeros2 6 (length time) in
  xp <- set_row 0 (linspace (item (x0 self) 0) (item (xfinal self) 0) n) xp ;;
  xp <- set_row 1 (linspace 0 0.6 25 ++ linspace 0.6 1 76) xp ;;
  xp <- set_row 2 (full_like time 10) xp ;;
  xp <- fill_last_row 1.0 xp ;;
  let z := zeros2 2 (length time) in
  z <- fill_row 0 (PI / 2) z ;;
  z <- fill_row 1 0.5 z ;;
  Some (time, xp, z).

(** [ZermeloPrimalOCP.h], pointwise in [x1] ([np.full_like(x1, c)] is [c]
    and [np.zeros_like(x1)] is [0] at every sample). *)
Definition h (self : t) (x1 : R) (d : Z) : R :=
  if (d =? 0)%Z then 3 + 0.2 * x1 * (1 - x1)
  else if (d =? 1)%Z then 0.2 - 0.4 * x1
  else if (d =? 2)%Z then -4
  else 0.

(** [ZermeloPrimalOCP.state_constraint], pointwise in [(x0, x1)]. *)
Definition state_constraint (self : t) (x0 x1 : R) (dx0 dx1 : Z) : R :=
  if (dx0 =? 0)%Z && (dx1 =? 0)%Z then
    - (x0 - item (center self) 0) ^ 2 / a1 self ^ 2
    - (x1 - item (center self) 1) ^ 2 / a2 self ^ 2 + r self ^ 2
  else if (dx0 =? 1)%Z && (dx1 =? 0)%Z then
    - 2 * (x0 - item (center self) 0 / 2) / a1 self ^ 2
  else if (dx0 =? 0)%Z && (dx1 =? 1)%Z then
    - 2 * (x1 - item (center self) 1 / 2.5) / a2 self ^ 2
  else if (dx0 =? 2)%Z && (dx1 =? 0)%Z then
    - 2 / a1 self ^ 2
  else if (dx0 =? 0)%Z && (dx1 =? 2)%Z then
    - 2 / a2 self ^ 2
  else 0.

(** [ZermeloPrimalOCP.twobc]. *)
Definition twobc (self : t) (xp0 xpT z0 zT : list R) : option (list R) :=
  let bc := zeros_like xp0 in
  d0 <- vsub (slice 0 2 xp0) (x0 self) ;;
  bc <- set_slice 0 2 d0 bc ;;
  dT <- vsub (slice 0 2 xpT) (xfinal self) ;;
  bc <- set_slice 2 4 dT bc ;;
  l0 <- get_last xp0 ;;
  bc <- set_at 4 l0 bc ;;
  lT <- get_last xpT ;;
  bc <- set_at 5 (lT - 1) bc ;;
  Some bc.

(** [ZermeloPrimalOCP.bcjac]: returns [(gx0, gxT, gz0, gzT)]. *)
Definition bcjac (self : t) (xp0 xpT z0 zT : list R)
  : option (list (list R) * list (list R) * list (list R) * list (list R)) :=
  let gx0 := zeros2 (length xp0) (length xp0) in
  gx0 <- set_block 0 2 0 2 (eye 2) gx0 ;;
  gx0 <- set_entry_last 4 1 gx0 ;;
  let gxT := zeros2 (length xpT) (length xpT) in
  gxT <- set_block 2 4 0 2 (eye 2) gxT ;;
  gxT <- set_entry_last 5 1 gxT ;;
  let gz0 := zeros2 (length xp0) (length z0) in
  let gzT := gz0 in
  Some (gx0, gxT, gz0, gzT).

End ZermeloPrimalOCP.

(** ** src/python/main_goddard_primal_dual_casadi.py *)

Module GoddardMain.
Local Open Scope string_scope.
Local Open Scope list_scope.
Local Open Scope Q_scope.

Definition array1 := list Q.
Definition array2 := list (list Q).

(** [BVPSol(time=..., xp=..., z=...)] of [bvpdae_solver]. *)
Record BVPSol : Type := mkBVPSol {
  sol_time : array1;
  sol_xp : array2;
  sol_z : array2
}.

(** The [infos] record returned by [BVPDAE.solve]; the driver reads only
    its [success] flag. *)
Record Infos : Type := mkInfos { success : bool }.

(** Modelled from the spec: class [GoddardPrimalDual] (module
    [Goddard.GoddardPrimalDualOCPAD]) is not part of the sources at hand.
    Per the spec the contract stores the continuation parameter, which
    [set_continuation_parameter(eps)] overwrites, exactly as
    [ZermeloPrimalOCP.set_eps] does; its other attributes are never touched
    by the driver and are left out. *)
Record GoddardPrimalDual : Type := mkOCP { ocp_eps : Q }.

Definition set_eps (self : GoddardPrimalDual) (eps : Q) : GoddardPrimalDual :=
  {| ocp_eps := eps |}.

(** Python values that are printed, returned or written to a file. *)
#[warnings="-register-all"]
Inductive pyobj : Type :=
| PFloat (x : Q)
| PInt (n : Z)
| PStr (s : string)
| PArr1 (a : array1)
| PArr2 (a : array2)
| PDict (items : list (string * pyobj)).

(** [d[key]] on a [dict], first binding wins (keys are distinct here). *)
Fixpoint lookup (key : string) (items : list (string * pyobj)) : option pyobj :=
  match items with
  | [] => None
  | (k, v) :: rest => if String.eqb key k then Some v else lookup key rest
  end.

Definition getitem (key : string) (o : pyobj) : option pyobj :=
  match o with
  | PDict items => lookup key items
  | _ => None
  end.

Inductive exn : Type :=
| Exception (msg : string)
| IndexError
| ZeroDivisionError.

Inductive result (A : Type) : Type :=
| Ok (a : A)
| Raise (e : exn).
Arguments Ok {A} a.
Arguments Raise {A} e.

(** What the function does to the outside world, in order. *)
Inductive event : Type :=
| EPrint (args : list pyobj)
| ETimer (now : Q)
| ESolve (sol : BVPSol) (ocp : GoddardPrimalDual) (out : BVPSol) (infos : Infos)
| EDump (path : string) (doc : pyobj)
| EPlotSequence (ylabel : string) (xs ys : list array1)
| EPlot (x y : array1).

Definition world := list event.

Definition is_timer (e : event) : bool :=
  match e with ETimer _ => true | _ => false end.
Definition is_solve (e : event) : bool :=
  match e with ESolve _ _ _ _ => true | _ => false end.

(** The calls made to [bvp_solver.solve] so far. *)
Definition solves (w : world) : list event := filter is_solve w.

(** The continuation parameter held by the contract at each call of
    [bvp_solver.solve], oldest first. *)
Fixpoint solve_eps (w : world) : list Q :=
  match w with
  | [] => []
  | ESolve _ ocp _ _ :: w' => ocp_eps ocp :: solve_eps w'
  | _ :: w' => solve_eps w'
  end.

(** The documents written so far, oldest first. *)
Fixpoint dumps (w : world) : list (string * pyobj) :=
  match w with
  | [] => []
  | EDump path doc :: w' => (path, doc) :: dumps w'
  | _ :: w' => dumps w'
  end.

(** Statements run in a world and either yield a value or raise. *)
Definition M (A : Type) : Type := world -> world * result A.

Definition ret {A} (a : A) : M A := fun w => (w, Ok a).
Definition raise {A} (e : exn) : M A := fun w => (w, Raise e).
Definition bind {A B} (m : M A) (k : A -> M B) : M B :=
  fun w => match m w with
           | (w', Ok a) => k a w'
           | (w', Raise e) => (w', Raise e)
           end.
Definition emit (e : event) : M unit := fun w => (w ++ [e], Ok tt).

Notation "x <~ m ;; k" := (bind m (fun x => k))
  (at level 61, m at next level, right associativity).
Notation "m ;;; k" := (bind m (fun _ => k))
  (at level 61, right associativity).

(** An index that is out of range raises [IndexError]. *)
Definition index {A} (o : option A) : M A :=
  match o with Some a => ret a | None => raise IndexError end.

(** [a[i, :]], [a[i]] on a two-dimensional array. *)
Definition row (a : array2) (i : nat) : M array1 := index (nth_error a i).
(** [a[i, j]]. *)
Definition item2 (a : array2) (i j : nat) : M Q :=
  r <~ row a i ;; index (nth_error r j).
(** [a[i, -1]]. *)
Definition item2_last (a : array2) (i : nat) : M Q :=
  r <~ row a i ;; index (Numpy.get_last r).

(** [c * a] with [c] a scalar and [a] an array. *)
Definition scale (c : Q) (a : array1) : array1 := map (Qmult c) a.

Definition print (args : list pyobj) : M unit := emit (EPrint args).

Section Driver.
(** The collaborators of the driver that are not part of the sources at
    hand.  Each is taken to return; an exception raised inside one of them
    would leave the driver unchanged, as the driver catches nothing. *)

(** [GoddardPrimalDual()]: the freshly constructed contract. *)
Variable new_ocp : GoddardPrimalDual.
(** [ocp.initialize()]. *)
Variable initialize : GoddardPrimalDual -> array1 * array2 * array2.
(** [ocp.dyn_press(h, v)]. *)
Variable dyn_press : GoddardPrimalDual -> array1 -> array1 -> array1.
(** [bvp_solver.solve(bvp_sol, ocp)], for the solver built from the fixed
    [options]; the first argument counts the earlier calls, so that a
    solver with internal state is covered. *)
Variable solve : nat -> BVPSol -> GoddardPrimalDual -> BVPSol * Infos.
(** [timeit.default_timer()]: the value of its [n]-th reading. *)
Variable clock : nat -> Q.

Definition dtime : M Q :=
  fun w => let now := clock (length (filter is_timer w)) in
           (w ++ [ETimer now], Ok now).

Definition call_solve (sol : BVPSol) (ocp : GoddardPrimalDual)
  : M (BVPSol * Infos) :=
  fun w => let '(out, infos) := solve (length (solves w)) sol ocp in
           (w ++ [ESolve sol ocp out infos], Ok (out, infos)).

(** The local variables of [main_primal_dual] that the loop reads and
    writes.  [alpha] and [tol] are assigned once and are parameters of
    the functions below. *)
Record locals : Type := mkLocals {
  cumul_time : Q;
  eps : Q;
  ocp : GoddardPrimalDual;
  time : array1;
  xp : array2;
  z : array2;
  bvp_sol : BVPSol;
  convergence : bool;
  iter : Z;
  times : list array1; hs : list array1; vs : list array1;
  ms : list array1; us : list array1; p1s : list array1;
  p2s : list array1; p3s : list array1; mus : list array1;
  nups : list array1; nums : list array1; qs : list array1
}.

Definition failure_message : string :=
  "Primal-dual Goddard problem failed before convergence".

(** One pass through the body of [while not convergence] (lines 46-71). *)
Definition body (alpha tol : Q) (st : locals) : M locals :=
  print [PStr "eps = "; PFloat (eps st)] ;;;
  print [PStr "alpha = "; PFloat alpha] ;;;
  ts0 <~ dtime ;;
  res <~ call_solve (bvp_sol st) (ocp st) ;;
  let bvp_sol := fst res in
  let infos := snd res in
  ts1 <~ dtime ;;
  let cumul_time := cumul_time st + (ts1 - ts0) in
  if negb (success infos) then raise (Exception failure_message)
  else
    let time := sol_time bvp_sol in
    let xp := sol_xp bvp_sol in
    let z := sol_z bvp_sol in
    let convergence := Qle_bool (eps st) tol in
    let eps := eps st * alpha in
    let ocp := set_eps (ocp st) eps in
    x30 <~ item2 xp 3 0 ;;
    let times := times st ++ [scale x30 time] in
    h <~ row xp 0 ;;
    let hs := hs st ++ [h] in
    v <~ row xp 1 ;;
    let vs := vs st ++ [v] in
    m <~ row xp 2 ;;
    let ms := ms st ++ [m] in
    qh <~ row xp 0 ;;
    qv <~ row xp 1 ;;
    let qs := qs st ++ [dyn_press ocp qh qv] in
    u <~ row z 0 ;;
    let us := us st ++ [u] in
    p1 <~ row xp 4 ;;
    let p1s := p1s st ++ [p1] in
    p2 <~ row xp 5 ;;
    let p2s := p2s st ++ [p2] in
    p3 <~ row xp 6 ;;
    let p3s := p3s st ++ [p3] in
    mu <~ row z 1 ;;
    let mus := mus st ++ [mu] in
    nup <~ row z 2 ;;
    let nups := nups st ++ [nup] in
    num <~ row z 3 ;;
    let nums := nums st ++ [num] in
    let iter := (iter st + 1)%Z in
    print [PStr " "] ;;;
    ret {| cumul_time := cumul_time; eps := eps; ocp := ocp;
           time := time; xp := xp; z := z; bvp_sol := bvp_sol;
           convergence := convergence; iter := iter;
           times := times; hs := hs; vs := vs; ms := ms; us := us;
           p1s := p1s; p2s := p2s; p3s := p3s; mus := mus;
           nups := nups; nums := nums; qs := qs |}.

(** [while not convergence: body].  The loop need not terminate for
    arbitrary [alpha] and [tol]; [fuel] bounds the number of passes and
    [None] means that it ran out. *)
Fixpoint while_loop (alpha tol : Q) (fuel : nat) (st : locals) (w : world)
  : option (world * result locals) :=
  if convergence st then Some (w, Ok st)
  else
    match fuel with
    | O => None
    | S fuel' =>
        match body alpha tol st w with
        | (w', Ok st') => while_loop alpha tol fuel' st' w'
        | (w', Raise e) => Some (w', Raise e)
        end
    end.

(** Lines 30-43: the local variables when the loop is entered. *)
Definition enter (eps0 : Q) : locals :=
  let ocp := set_eps new_ocp eps0 in
  let '(time, xp, z) := initialize ocp in
  {| cumul_time := 0; eps := eps0; ocp := ocp;
     time := time; xp := xp; z := z; bvp_sol := mkBVPSol time xp z;
     convergence := false; iter := 0;
     times := []; hs := []; vs := []; ms := []; us := [];
     p1s := []; p2s := []; p3s := []; mus := [];
     nups := []; nums := []; qs := [] |}.

(** [initial_solution = dict(time=time, xp=xp, z=z)] (line 37).  The
    arrays are the ones handed to the solver; [solve] is taken not to
    overwrite its argument in place. *)
Definition initial_solution (st0 : locals) : pyobj :=
  PDict [("time", PArr1 (time st0)); ("xp", PArr2 (xp st0));
         ("z", PArr2 (z st0))].

(** [x / y] on floats. *)
Definition truediv (x y : Q) : M Q :=
  if Qeq_bool y 0 then raise ZeroDivisionError else ret (x / y).

Definition pickle_path : string := "Goddard/results_goddard_primal_dual.pickle".
Definition json_path : string := "Goddard/results_goddard_primal_dual.json".

(** [optimal_solution] (line 72), given the value of [eps / alpha]. *)
Definition optimal_solution (alpha final_eps : Q) (st : locals) : pyobj :=
  PDict [("time", PArr1 (time st)); ("xp", PArr2 (xp st));
         ("z", PArr2 (z st)); ("eps", PFloat final_eps);
         ("alpha", PFloat alpha); ("exec_time", PFloat (cumul_time st));
         ("iter", PInt (iter st))].

(** [dict_save] (line 73). *)
Definition dict_save (initial optimal : pyobj) : pyobj :=
  PDict [("initial_solution", initial); ("optimal_solution", optimal)].

(** [data_solution] (line 100); [tolist()] keeps the entries of an
    array, and the JSON document is the object handed to [json.dumps]. *)
Definition data_solution (st : locals) : pyobj :=
  PDict [("t", PArr1 (time st)); ("xp", PArr2 (xp st));
         ("z", PArr2 (z st))].

(** Lines 72-106: what follows the loop.  [plot_sequence] and
    [matplotlib] only draw; each call is recorded with its data and its
    axis label. *)
Definition finish (alpha : Q) (initial : pyobj) (st : locals) : M pyobj :=
  final_eps <~ truediv (eps st) alpha ;;
  let optimal := optimal_solution alpha final_eps st in
  emit (EDump pickle_path (dict_save initial optimal)) ;;;
  emit (EPlotSequence "$\mu(t)$" (times st) (mus st)) ;;;
  emit (EPlotSequence "$\eta_1(t)$" (times st) (nups st)) ;;;
  emit (EPlotSequence "$\eta_2(t)$" (times st) (nums st)) ;;;
  emit (EPlotSequence "$p_3(t)$" (times st) (p3s st)) ;;;
  emit (EPlotSequence "$p_2(t)$" (times st) (p2s st)) ;;;
  emit (EPlotSequence "$p_1(t)$" (times st) (p1s st)) ;;;
  emit (EPlotSequence "$q(t)$" (times st) (qs st)) ;;;
  emit (EPlotSequence "$u(t)$" (times st) (us st)) ;;;
  emit (EPlotSequence "$m(t)$" (times st) (ms st)) ;;;
  emit (EPlotSequence "$v(t)$" (times st) (vs st)) ;;;
  emit (EPlotSequence "$h(t)$" (times st) (hs st)) ;;;
  x30 <~ item2 (xp st) 3 0 ;;
  z0 <~ row (z st) 0 ;;
  emit (EPlot (scale x30 (time st)) z0) ;;;
  tf <~ item2 (xp st) 3 0 ;;
  print [PStr "Time final = "; PFloat tf] ;;;
  alt <~ item2_last (xp st) 0 ;;
  print [PStr "Altitude = "; PFloat alt] ;;;
  print [PStr "Execution time = "; PFloat (cumul_time st)] ;;;
  print [PStr "Number of iterations = "; PInt (Z.of_nat (length (times st)))] ;;;
  print [PStr "Number of final time steps = "; PInt (Z.of_nat (length (time st)))] ;;;
  emit (EDump json_path (data_solution st)) ;;;
  ret optimal.

(** [main_primal_dual] with the constants of lines 31-33 as parameters:
    the events it causes, and the value it returns or the exception it
    raises. *)
Definition main_primal_dual_from (eps0 alpha tol : Q) (fuel : nat)
  : option (world * result pyobj) :=
  let st0 := enter eps0 in
  match while_loop alpha tol fuel st0 [] with
  | None => None
  | Some (w, Raise e) => Some (w, Raise e)
  | Some (w, Ok st) => Some (finish alpha (initial_solution st0) st w)
  end.

(** [eps = 1.], [alpha = .5], [tol = 1e-10]. *)
Definition eps_0 : Q := 1.
Definition alpha : Q := 1 # 2.
Definition tol : Q := 1 # 10000000000.

(** [main_primal_dual]. *)
Definition main_primal_dual (fuel : nat) : option (world * result pyobj) :=
  main_primal_dual_from eps_0 alpha tol fuel.
End Driver.

End GoddardMain.


(** ** src/Zermelo/ZermeloPrimalOCP.py: dynamics and stationarity *)

(** [ode], [odejac], [algeq] and [algjac] receive the arrays [time] of
    shape [(N,)], [xp] of shape [(6, N)] and [z] of shape [(2, N)] and work
    along the time axis elementwise: every product, sum, [np.cos] and
    [np.sin] in them is applied sample by sample, and an assignment such as
    [dxpdt[0] = ...] fills the row of samples.  They are given here at one
    sample: [time] is the sample time, [xp] and [z] are the columns of the
    arrays at that sample, and the blocks [jacx[i, j]], [jacz[i, j]],
    [gx[i, j]], [gz[i, j]] are the entries at that sample. *)

Module ZermeloDynamics.
Import Numpy ZermeloPrimalOCP.
Local Open Scope R_scope.

(** [m[i, j] = v]. *)
Definition set_entry (i j : nat) (v : R) (m : list (list R))
  : option (list (list R)) :=
  match nth_error m i with
  | Some row =>
      match set_at j v row with
      | Some row' => set_at i row' m
      | None => None
      end
  | None => None
  end.

(** [m[i, j]]. *)
Definition get_entry (i j : nat) (m : list (list R)) : option R :=
  match nth_error m i with
  | Some row => nth_error row j
  | None => None
  end.

Section Penalty.

(** [utils_functions.log_pen(x, d)], which is not part of the sources at
    hand: the penalty function for [d = 0] and its derivatives of order
    [d]. *)
Variable log_pen : R -> Z -> R.

(** [ZermeloPrimalOCP.ode]; the unpackings [x0, ..., p2 = xp] and
    [u0, u1 = z] raise [ValueError] unless [xp] has six rows and [z]
    two. *)
Definition ode (self : t) (time : R) (xp z : list R) : option (list R) :=
  match xp, z with
  | [x0; x1; x2; p0; p1; p2], [u0; u1] =>
      let lg := eps self * log_pen (state_constraint self x0 x1 0 0) 1 in
      let dxpdt := zeros_like xp in
      dxpdt <- set_at 0 (x2 * (u1 * cos u0 + h self x1 0)) dxpdt ;;
      dxpdt <- set_at 1 (x2 * u1 * sin u0) dxpdt ;;
      dxpdt <- set_at 2 0 dxpdt ;;
      dxpdt <- set_at 3 (- lg * state_constraint self x0 x1 1 0) dxpdt ;;
      dxpdt <- set_at 4 (- p0 * x2 * h self x1 1
                         - lg * state_constraint self x0 x1 0 1) dxpdt ;;
      dxpdt <- set_at 5 (- p0 * (u1 * cos u0 + h self x1 0)
                         - p1 * u1 * sin u0) dxpdt ;;
      Some dxpdt
  | _, _ => None
  end.

(** [ZermeloPrimalOCP.odejac]: returns [(jacx, jacz)]. *)
Definition odejac (self : t) (time : R) (xp z : list R)
  : option (list (list R) * list (list R)) :=
  match xp, z with
  | [x0; x1; x2; p0; p1; p2], [u0; u1] =>
      let lg := eps self * log_pen (state_constraint self x0 x1 0 0) 1 in
      let dlg := eps self * log_pen (state_constraint self x0 x1 0 0) 2 in
      let dstate_const_dx0 := state_constraint self x0 x1 1 0 in
      let dstate_const_dx1 := state_constraint self x0 x1 0 1 in
      let jacx := zeros2 (length xp) (length xp) in
      jacx <- set_entry 0 1 (x2 * h self x1 1) jacx ;;
      jacx <- set_entry 0 2 (u1 * cos u0 + h self x1 0) jacx ;;
      jacx <- set_entry 1 2 (u1 * sin u0) jacx ;;
      jacx <- set_entry 3 0
                (- (dlg * dstate_const_dx0 ^ 2
                    + lg * state_constraint self x0 x1 2 0)) jacx ;;
      jacx <- set_entry 3 1
                (- (dlg * dstate_const_dx1 * dstate_const_dx0
                    + lg * state_constraint self x0 x1 1 1)) jacx ;;
      j31 <- get_entry 3 1 jacx ;;
      jacx <- set_entry 4 0 j31 jacx ;;
      jacx <- set_entry 4 1
                (- p0 * x2 * h self x1 2
                 - (dlg * dstate_const_dx1 ^ 2
                    + lg * state_constraint self x0 x1 0 2)) jacx ;;
      jacx <- set_entry 4 2 (- p0 * h self x1 1) jacx ;;
      jacx <- set_entry 4 3 (- x2 * h self x1 1) jacx ;;
      jacx <- set_entry 5 1 (- p0 * h self x1 1) jacx ;;
      jacx <- set_entry 5 3 (- (u1 * cos u0 + h self x1 0)) jacx ;;
      jacx <- set_entry 5 4 (- u1 * sin u0) jacx ;;
      let jacz := zeros2 (length xp) (length z) in
      jacz <- set_entry 0 0 (- x2 * u1 * sin u0) jacz ;;
      jacz <- set_entry 0 1 (x2 * cos u0) jacz ;;
      jacz <- set_entry 1 0 (x2 * u1 * cos u0) jacz ;;
      jacz <- set_entry 1 1 (x2 * sin u0) jacz ;;
      Some (jacx, jacz)
  | _, _ => None
  end.

(** [ZermeloPrimalOCP.algeq]. *)
Definition algeq (self : t) (time : R) (xp z : list R) : option (list R) :=
  match xp, z with
  | [x0; x1; x2; p0; p1; p2], [u0; u1] =>
      let lu0p := eps self * log_pen (u0 - u0max self) 1 in
      let lu0m := eps self * log_pen (u0min self - u0) 1 in
      let lu1p := eps self * log_pen (u1 - u1max self) 1 in
      let lu1m := eps self * log_pen (u1min self - u1) 1 in
      let dhdu := zeros_like z in
      dhdu <- set_at 0 (- p0 * x2 * u1 * sin u0 + p1 * x2 * u1 * cos u0
                        + lu0p - lu0m) dhdu ;;
      dhdu <- set_at 1 (p0 * x2 * cos u0 + p1 * x2 * sin u0 + lu1p - lu1m)
                dhdu ;;
      Some dhdu
  | _, _ => None
  end.

(** [ZermeloPrimalOCP.algjac]: returns [(gx, gz)]. *)
Definition algjac (self : t) (time : R) (xp z : list R)
  : option (list (list R) * list (list R)) :=
  match xp, z with
  | [x0; x1; x2; p0; p1; p2], [u0; u1] =>
      let dlu0p_du0 := eps self * log_pen (u0 - u0max self) 2 in
      let dlu0m_du0 := - eps self * log_pen (u0min self - u0) 2 in
      let dlu1p_du1 := eps self * log_pen (u1 - u1max self) 2 in
      let dlu1m_du1 := - eps self * log_pen (u1min self - u1) 2 in
      let gx := zeros2 (length z) (length xp) in
      gx <- set_entry 0 2 (- p0 * u1 * sin u0 + p1 * u1 * cos u0) gx ;;
      gx <- set_entry 0 3 (- x2 * u1 * sin u0) gx ;;
      gx <- set_entry 0 4 (x2 * u1 * cos u0) gx ;;
      gx <- set_entry 1 2 (p0 * cos u0 + p1 * sin u0) gx ;;
      gx <- set_entry 1 3 (x2 * cos u0) gx ;;
      gx <- set_entry 1 4 (x2 * sin u0) gx ;;
      let gz := zeros2 (length z) (length z) in
      gz <- set_entry 0 0 (- p0 * x2 * u1 * cos u0 - p1 * x2 * u1 * sin u0
                           + dlu0p_du0 - dlu0m_du0) gz ;;
      gz <- set_entry 0 1 (- p0 * x2 * sin u0 + p1 * x2 * cos u0) gz ;;
      gz <- set_entry 1 0 (- p0 * x2 * sin u0 + p1 * x2 * cos u0) gz ;;
      gz <- set_entry 1 1 (dlu1p_du1 - dlu1m_du1) gz ;;
      Some (gx, gz)
  | _, _ => None
  end.

End Penalty.

End ZermeloDynamics.
(** ** Vocabulary of the specification *)

Module Calculus.
Local Open Scope R_scope.

(** [v] with its [j]-th entry replaced by [t]. *)
Definition upd (j : nat) (t : R) (v : list R) : list R :=
  firstn j v ++ t :: skipn (S j) v.

(** The [i]-th entry of a residual; an evaluation that raises has none. *)
Definition component (i : nat) (o : option (list R)) : R :=
  match o with
  | Some v => nth i v 0
  | None => 0
  end.

Definition entry (m : list (list R)) (i j : nat) : R := nth j (nth i m []) 0.

(** [m] has [rows] rows of [cols] entries each. *)
Definition has_shape {A : Type} (m : list (list A)) (rows cols : nat) : Prop :=
  length m = rows /\ Forall (fun row => length row = cols) m.

(** [J] is the matrix of the partial derivatives at [v] of the [m]
    components of [F] with respect to the [n] entries of its argument. *)
Definition is_jacobian (F : list R -> option (list R)) (v : list R)
  (J : list (list R)) (m n : nat) : Prop :=
  has_shape J m n /\
  forall i j, (i < m)%nat -> (j < n)%nat ->
    derivable_pt_lim (fun t => component i (F (upd j t v))) (nth j v 0)
      (entry J i j).

End Calculus.

Module Continuation.
Import GoddardMain.
Local Open Scope Q_scope.

(** The continuation parameter after [k] contractions [eps *= alpha]. *)
Definition geom (eps0 alpha : Q) (k : nat) : Q :=
  Nat.iter k (fun e => e * alpha) eps0.

(** The data-model invariant of a Trajectory with [n_x] state/adjoint rows
    and [n_z] algebraic rows on a non-empty grid. *)
Definition is_trajectory (n_x n_z : nat) (s : BVPSol) : bool :=
  let n := length (sol_time s) in
  Nat.ltb 0 n
  && Nat.eqb (length (sol_xp s)) n_x
  && forallb (fun r => Nat.eqb (length r) n) (sol_xp s)
  && Nat.eqb (length (sol_z s)) n_z
  && forallb (fun r => Nat.eqb (length r) n) (sol_z s).

(** A solver that reports success whatever it is handed, and hands back a
    Trajectory of exactly seven [xp] rows and four [z] rows.  This asks
    more than that the solves of one run succeed; it is the premise of
    the specification's bound as it is refuted below. *)
Definition solver_succeeds
  (solve : nat -> BVPSol -> GoddardPrimalDual -> BVPSol * Infos) : Prop :=
  forall k s o,
    success (snd (solve k s o)) = true /\
    is_trajectory 7 4 (fst (solve k s o)) = true.

(** The solve events of a world that reported failure. *)
Definition failed (e : event) : bool :=
  match e with
  | ESolve _ _ _ infos => negb (success infos)
  | _ => false
  end.


(** The readings of the timer, oldest first. *)
Fixpoint timer_values (w : world) : list Q :=
  match w with
  | [] => []
  | ETimer now :: w' => now :: timer_values w'
  | _ :: w' => timer_values w'
  end.

(** The time spent between the readings taken in pairs, added up in the
    order of the pairs on top of [acc]. *)
Fixpoint elapsed_from (acc : Q) (l : list Q) : Q :=
  match l with
  | ts0 :: ts1 :: l' => elapsed_from (acc + (ts1 - ts0)) l'
  | _ => acc
  end.

Definition elapsed (w : world) : Q := elapsed_from 0 (timer_values w).

(** All the values stored in a document, at any depth. *)
Fixpoint leaves (o : pyobj) : list pyobj :=
  match o with
  | PDict items => flat_map (fun kv => leaves (snd kv)) items
  | _ => [o]
  end.

(** The trajectory handed back by the latest solve, [acc] when there was
    none. *)
Fixpoint last_output_from (acc : option BVPSol) (w : world) : option BVPSol :=
  match w with
  | [] => acc
  | ESolve _ _ out _ :: w' => last_output_from (Some out) w'
  | _ :: w' => last_output_from acc w'
  end.

Definition last_output (w : world) : option BVPSol := last_output_from None w.

(** What holds of the world whenever the loop test is reached, for a loop
    entered with [eps = eps0]: the solves so far used
    [eps0, eps0 alpha, eps0 alpha^2, ...], none of them but possibly the
    last was at or below [tol], none failed, the timer was read twice per
    solve, and nothing was written. *)
Definition world_inv (eps0 alpha tol : Q) (w : world) : Prop :=
  let n := length (solves w) in
  solve_eps w = map (geom eps0 alpha) (seq 0 n) /\
  (forall k, (S k < n)%nat -> Qle_bool (geom eps0 alpha k) tol = false) /\
  length (timer_values w) = (2 * n)%nat /\
  dumps w = [].

(** What holds of the local variables whenever the loop test is
    reached. *)
Definition loop_inv (eps0 alpha tol : Q) (st : locals) (w : world) : Prop :=
  let n := length (solves w) in
  world_inv eps0 alpha tol w /\
  existsb failed w = false /\
  eps st = geom eps0 alpha n /\
  ocp_eps (ocp st) = eps st /\
  iter st = Z.of_nat n /\
  cumul_time st = elapsed w /\
  convergence st =
    match n with
    | O => false
    | S m => Qle_bool (geom eps0 alpha m) tol
    end /\
  match last_output w with
  | Some out =>
      bvp_sol st = out /\ time st = sol_time out /\
      xp st = sol_xp out /\ z st = sol_z out
  | None => n = O
  end.

(** What a pass does to the world, and to the locals when it completes. *)
Definition pass_spec (alpha tol : Q) (st : locals) (w w' : world)
  (r : result locals) : Prop :=
  exists evs out infos ts0 ts1,
    w' = w ++ evs /\
    solves evs = [ESolve (bvp_sol st) (ocp st) out infos] /\
    solve_eps evs = [ocp_eps (ocp st)] /\
    timer_values evs = [ts0; ts1] /\
    dumps evs = [] /\
    existsb failed evs = negb (success infos) /\
    (forall acc, last_output_from acc evs = Some out) /\
    match r with
    | Ok st' =>
        success infos = true /\
        eps st' = eps st * alpha /\
        ocp st' = set_eps (ocp st) (eps st * alpha) /\
        convergence st' = Qle_bool (eps st) tol /\
        iter st' = (iter st + 1)%Z /\
        cumul_time st' = cumul_time st + (ts1 - ts0) /\
        bvp_sol st' = out /\ time st' = sol_time out /\
        xp st' = sol_xp out /\ z st' = sol_z out
    | Raise e =>
        (success infos = false /\ e = Exception failure_message) \/
        (success infos = true /\ e = IndexError)
    end.


(** What is known of the world when an exception [e] leaves the loop: the
    solves used the geometric sequence, nothing was written, and either a
    solve failed and [e] is the driver's own exception, or none failed and
    an array lacked a row or a column that the driver reads. *)
Definition loop_exit_raise (eps0 alpha tol : Q) (w : world) (e : exn) : Prop :=
  world_inv eps0 alpha tol w /\
  (1 <= length (solves w))%nat /\
  ((existsb failed w = true /\ e = Exception failure_message) \/
   (existsb failed w = false /\ e = IndexError)).

(** What is known of the world of a completed run entered with
    [eps = eps0], however it ended. *)
Definition run_inv (eps0 alpha tol : Q) (w : world) : Prop :=
  let n := length (solves w) in
  (1 <= n)%nat /\
  solve_eps w = map (geom eps0 alpha) (seq 0 n) /\
  (forall k, (S k < n)%nat -> Qle_bool (geom eps0 alpha k) tol = false).

(** What is known when the run returns [v], with [st] the local variables
    when the loop was left and [initial] the dictionary of line 37. *)
Definition return_spec (eps0 alpha tol : Q) (initial : pyobj) (st : locals)
  (w : world) (v : pyobj) : Prop :=
  let n := length (solves w) in
  existsb failed w = false /\
  Qle_bool (geom eps0 alpha (n - 1)) tol = true /\
  Qeq_bool alpha 0 = false /\
  eps st = geom eps0 alpha n /\
  ocp_eps (ocp st) = eps st /\
  iter st = Z.of_nat n /\
  cumul_time st = elapsed w /\
  (exists out,
     last_output w = Some out /\ time st = sol_time out /\
     xp st = sol_xp out /\ z st = sol_z out) /\
  v = optimal_solution alpha (eps st / alpha) st /\
  dumps w = [(pickle_path, dict_save initial v);
             (json_path, data_solution st)].

(** What is known when the run raises [e]. *)
Definition raise_spec (w : world) (e : exn) : Prop :=
  (existsb failed w = true /\ e = Exception failure_message /\ dumps w = []) \/
  (existsb failed w = false /\ (e = IndexError \/ e = ZeroDivisionError)).

(** The trajectories handed back by the solves, oldest first. *)
Fixpoint outputs (w : world) : list BVPSol :=
  match w with
  | [] => []
  | ESolve _ _ out _ :: w' => out :: outputs w'
  | _ :: w' => outputs w'
  end.

(** [a[i, :]] can be read. *)
Definition has_row (a : array2) (i : nat) : bool :=
  match nth_error a i with
  | Some _ => true
  | None => false
  end.

(** [a[i, 0]] and [a[i, -1]] can be read. *)
Definition has_item (a : array2) (i : nat) : bool :=
  match nth_error a i with
  | Some (_ :: _) => true
  | _ => false
  end.

(** The trajectory holds everything that the driver reads from it:
    [xp[3, 0]], the rows [xp[0]], ..., [xp[6]] and [z[0]], ..., [z[3]],
    and [xp[0, -1]].  Further rows are allowed. *)
Definition readable (s : BVPSol) : bool :=
  has_item (sol_xp s) 3
  && has_row (sol_xp s) 0 && has_row (sol_xp s) 1 && has_row (sol_xp s) 2
  && has_row (sol_z s) 0
  && has_row (sol_xp s) 4 && has_row (sol_xp s) 5 && has_row (sol_xp s) 6
  && has_row (sol_z s) 1 && has_row (sol_z s) 2 && has_row (sol_z s) 3
  && has_item (sol_xp s) 0.

(** The run ended right after a solve: the solve, the second reading of
    the timer, and nothing more. *)
Definition ends_with_solve (w : world) (infos_of_last : Infos)
  (out_of_last : BVPSol) : Prop :=
  exists w0 sol ocp ts1,
    w = w0 ++ [ESolve sol ocp out_of_last infos_of_last; ETimer ts1] /\
    existsb failed w0 = false.

End Continuation.

(** ** Statements of the specification about the driver *)

Module DriverSpec.
Import GoddardMain Continuation.

(** The least integer that is not below [r]. *)
Definition Rceil (r : R) : Z := (- Int_part (- r))%Z.

(** [ceil(log(tol / eps_0) / log(alpha))] for the constants of lines
    31-33. *)
Definition iteration_bound : Z :=
  Rceil (ln (Q2R tol / Q2R eps_0) / ln (Q2R alpha))%R.

(** With a solver that always succeeds the run returns after at most
    [bound] passes through the loop; each pass calls the solver once. *)
Definition loop_terminates_within (bound : Z) : Prop :=
  forall new_ocp initialize dyn_press solve clock,
    solver_succeeds solve ->
    exists fuel w v,
      main_primal_dual new_ocp initialize dyn_press solve clock fuel
        = Some (w, Ok v) /\
      (Z.of_nat (length (solves w)) <= bound)%Z.

(** The trajectory and the continuation parameter handed to the latest
    solve, when that solve reported failure: the trajectory is the one of
    the last solve that succeeded, or the initial guess. *)
Definition failed_solve_input (w : world) : option (BVPSol * Q) :=
  match rev (solves w) with
  | ESolve sol ocp _ infos :: _ =>
      if success infos then None else Some (sol, ocp_eps ocp)
  | _ => None
  end.

(** The exception that leaves the driver after a failed solve lets its
    receiver read, through [payload], the last successful trajectory and
    the current [eps]. *)
Definition failure_carries_payload (payload : exn -> option (BVPSol * Q))
  : Prop :=
  forall new_ocp initialize dyn_press solve clock fuel w e sol eps,
    main_primal_dual new_ocp initialize dyn_press solve clock fuel
      = Some (w, Raise e) ->
    failed_solve_input w = Some (sol, eps) ->
    payload e = Some (sol, eps).

(** [doc] stores, under whatever keys and at whatever depth, the final
    trajectory, the [eps] of the final solve, the time spent in the solver
    and the number of passes of the run that caused [w]. *)
Definition holds_result_record (w : world) (doc : pyobj) : Prop :=
  exists out e,
    last_output w = Some out /\
    In (PArr1 (sol_time out)) (leaves doc) /\
    In (PArr2 (sol_xp out)) (leaves doc) /\
    In (PArr2 (sol_z out)) (leaves doc) /\
    In (PFloat e) (leaves doc) /\ e == last (solve_eps w) 0 /\
    In (PFloat (elapsed w)) (leaves doc) /\
    In (PInt (Z.of_nat (length (solves w)))) (leaves doc).

(** Every document written by a run that returns holds the record. *)
Definition every_document_holds_record : Prop :=
  forall new_ocp initialize dyn_press solve clock fuel w v path doc,
    main_primal_dual new_ocp initialize dyn_press solve clock fuel
      = Some (w, Ok v) ->
    In (path, doc) (dumps w) ->
    holds_result_record w doc.

End DriverSpec.

(** ** Sample collaborators *)

Module Samples.
Import GoddardMain.
Local Open Scope Q_scope.

(** A trajectory of the Goddard shapes on a grid of two points. *)
Definition trajectory : BVPSol :=
  mkBVPSol [0; 1] (repeat [1; 1] 7) (repeat [0; 1] 4).

Definition new_ocp : GoddardPrimalDual := mkOCP 0.

(** The initial guess, of the same shapes. *)
Definition guess : BVPSol :=
  mkBVPSol [0; 1] (repeat [0; 0] 7) (repeat [0; 0] 4).

Definition initialize (ocp : GoddardPrimalDual) : array1 * array2 * array2 :=
  (sol_time guess, sol_xp guess, sol_z guess).

Definition dyn_press (ocp : GoddardPrimalDual) (h v : array1) : array1 := h.

(** A timer that advances by one between two readings. *)
Definition clock (n : nat) : Q := inject_Z (Z.of_nat n).

(** A solver whose every call succeeds. *)
Definition ideal_solve (k : nat) (sol : BVPSol) (ocp : GoddardPrimalDual)
  : BVPSol * Infos :=
  (trajectory, mkInfos true).

(** A solver whose call number [k0] fails and whose other calls succeed. *)
Definition fails_at (k0 : nat) (k : nat) (sol : BVPSol)
  (ocp : GoddardPrimalDual) : BVPSol * Infos :=
  (trajectory, mkInfos (negb (Nat.eqb k k0))).

End Samples.

(** ** Further vocabulary for the driver *)

Module Warmstart.
Import GoddardMain Continuation.

(** Each solve of [l] starts from the trajectory handed back by the solve
    before it, and the first one from [prev]. *)
Fixpoint chained (prev : BVPSol) (l : list event) : Prop :=
  match l with
  | [] => True
  | ESolve sol _ out _ :: l' => sol = prev /\ chained out l'
  | _ :: l' => chained prev l'
  end.

(** The initial guess built on lines 35-38 from the fresh contract. *)
Definition initial_guess (new_ocp : GoddardPrimalDual)
  (initialize : GoddardPrimalDual -> array1 * array2 * array2) (eps0 : Q)
  : BVPSol :=
  let '(time, xp, z) := initialize (set_eps new_ocp eps0) in
  mkBVPSol time xp z.

(** The sequences handed to [plot_sequence] and printed as
    [len(times)] all hold [n] curves. *)
Definition sequences_have (n : nat) (st : locals) : Prop :=
  length (times st) = n /\ length (hs st) = n /\ length (vs st) = n /\
  length (ms st) = n /\ length (us st) = n /\ length (p1s st) = n /\
  length (p2s st) = n /\ length (p3s st) = n /\ length (mus st) = n /\
  length (nups st) = n /\ length (nums st) = n /\ length (qs st) = n.

(** The calls of [plot_sequence] recorded in a world. *)
Fixpoint plot_sequences (w : world) : list (string * list array1 * list array1) :=
  match w with
  | [] => []
  | EPlotSequence ylabel xs ys :: w' => (ylabel, xs, ys) :: plot_sequences w'
  | _ :: w' => plot_sequences w'
  end.

(** What was printed, oldest first. *)
Fixpoint printed (w : world) : list (list pyobj) :=
  match w with
  | [] => []
  | EPrint args :: w' => args :: printed w'
  | _ :: w' => printed w'
  end.

(** The trajectory in hand is the one handed back by the latest solve, or
    the initial guess. *)
Definition chain_inv (g : BVPSol) (st : locals) (w : world) : Prop :=
  chained g w /\ last_output_from (Some g) w = Some (bvp_sol st).






End Warmstart.

(** ** Further vocabulary for the Zermelo contract *)

Module Linear.
Local Open Scope R_scope.

(** A sample penalty, [x^2 / 2], with its derivatives of order [d]. *)
Definition quadratic_pen (x : R) (d : Z) : R :=
  if (d =? 0)%Z then x * x / 2
  else if (d =? 1)%Z then x
  else if (d =? 2)%Z then 1
  else 0.

End Linear.

(** ** The Zermelo contract: derivatives and initial guess *)

Section ZermeloFacts.
Import Numpy ZermeloPrimalOCP Calculus.
Local Open Scope R_scope.

(** Equations between rational expressions in the problem constants. *)
Ltac field_eq := cbn; first [lra | field; repeat split; lra].

(** A function that agrees everywhere with [a t^2 + b t + c] has the
    derivative [2 a x + b] at [x]. *)
Lemma quadratic_derivative (f : R -> R) (a b c x : R) :
  (forall t, f t = a * t * t + b * t + c) ->
  derivable_pt_lim f x (2 * a * x + b).
Proof.
  intros Hf eps Heps.
  assert (Hpos : 0 < eps / (Rabs a + 1)).
  { apply Rdiv_lt_0_compat; [exact Heps|]. pose proof (Rabs_pos a). lra. }
  exists (mkposreal _ Hpos). cbn. intros h Hh Hlt.
  rewrite !Hf.
  replace ((a * (x + h) * (x + h) + b * (x + h) + c - (a * x * x + b * x + c)) / h
           - (2 * a * x + b)) with (a * h) by (field; exact Hh).
  rewrite Rabs_mult.
  apply Rle_lt_trans with ((Rabs a + 1) * Rabs h).
  - pose proof (Rabs_pos h). nra.
  - pose proof (Rabs_pos a).
    apply Rlt_le_trans with ((Rabs a + 1) * (eps / (Rabs a + 1))).
    + apply Rmult_lt_compat_l; lra.
    + right. field. lra.
Qed.

Lemma affine_derivative (f : R -> R) (b c x : R) :
  (forall t, f t = b * t + c) -> derivable_pt_lim f x b.
Proof.
  intros Hf.
  assert (H : derivable_pt_lim f x (2 * 0 * x + b)).
  { apply quadratic_derivative with (c := c). intros t. rewrite Hf. ring. }
  replace (2 * 0 * x + b) with b in H by ring. exact H.
Qed.

(** C1: the first-derivative branches of [state_constraint] against the
    partial derivatives of its value branch.  The partial derivatives of
    the value branch are [-2 (x0 - center[0]) / a1^2] and
    [-2 (x1 - center[1]) / a2^2]; the [dx0 = 1] branch of the code is off
    from the former by the constant [-5/2] and its [dx1 = 1] branch is off
    from the latter by the constant [-48], at every point, so neither
    branch is the derivative anywhere. *)
Theorem state_constraint_first_derivative_branches (e x0 x1 : R) :
  let self := set_eps init e in
  let d0 := - 2 * (x0 - item (center self) 0) / a1 self ^ 2 in
  let d1 := - 2 * (x1 - item (center self) 1) / a2 self ^ 2 in
  derivable_pt_lim (fun t => state_constraint self t x1 0 0) x0 d0 /\
  derivable_pt_lim (fun t => state_constraint self x0 t 0 0) x1 d1 /\
  state_constraint self x0 x1 1 0 = d0 - 5 / 2 /\
  state_constraint self x0 x1 0 1 = d1 - 48 /\
  ~ derivable_pt_lim (fun t => state_constraint self t x1 0 0) x0
      (state_constraint self x0 x1 1 0) /\
  ~ derivable_pt_lim (fun t => state_constraint self x0 t 0 0) x1
      (state_constraint self x0 x1 0 1).
Proof.
  intros self d0 d1.
  assert (H0 : derivable_pt_lim (fun t => state_constraint self t x1 0 0) x0 d0).
  { replace d0 with (2 * (- / 4) * x0 + 5) by (unfold d0; field_eq).
    apply quadratic_derivative
      with (c := - 25 - (x1 - item (center self) 1) ^ 2 / a2 self ^ 2 + r self ^ 2).
    intros t. field_eq. }
  assert (H1 : derivable_pt_lim (fun t => state_constraint self x0 t 0 0) x1 d1).
  { replace d1 with (2 * (- 100) * x1 + 80) by (unfold d1; field_eq).
    apply quadratic_derivative
      with (c := - (x0 - item (center self) 0) ^ 2 / a1 self ^ 2 - 16 + r self ^ 2).
    intros t. field_eq. }
  assert (E0 : state_constraint self x0 x1 1 0 = d0 - 5 / 2)
    by (unfold d0; field_eq).
  assert (E1 : state_constraint self x0 x1 0 1 = d1 - 48)
    by (unfold d1; field_eq).
  repeat split; try assumption.
  - intros H. pose proof (uniqueness_limite _ _ _ _ H0 H) as U. lra.
  - intros H. pose proof (uniqueness_limite _ _ _ _ H1 H) as U. lra.
Qed.

(** C2: the derivative branches of [h] against its value branch.  The
    [d = 1] branch is the derivative of the value branch, and the
    derivative of the [d = 1] branch is the constant [-0.4]; the [d = 2]
    branch of the code returns [-4] instead, so it is not the derivative of
    the [d = 1] branch at any point. *)
Theorem h_derivative_branches (e x1 : R) :
  let self := set_eps init e in
  (forall t, h self t 0 = 3 + 0.2 * t * (1 - t)) /\
  derivable_pt_lim (fun t => h self t 0) x1 (h self x1 1) /\
  derivable_pt_lim (fun t => h self t 1) x1 (- 0.4) /\
  h self x1 2 = - 4 /\
  h self x1 2 <> - 0.4 /\
  ~ derivable_pt_lim (fun t => h self t 1) x1 (h self x1 2).
Proof.
  intros self.
  assert (H1 : derivable_pt_lim (fun t => h self t 1) x1 (- 0.4)).
  { apply affine_derivative with (c := 0.2). intros t. cbn. lra. }
  repeat split.
  - replace (h self x1 1) with (2 * (- 0.2) * x1 + 0.2) by (cbn; lra).
    apply quadratic_derivative with (c := 3). intros t. cbn. lra.
  - exact H1.
  - cbn. lra.
  - intros H. pose proof (uniqueness_limite _ _ _ _ H1 H) as U.
    cbn in U. lra.
Qed.

(** Lists of a known length are explicit. *)
Lemma length2_inv {A} (l : list A) :
  length l = 2%nat -> exists a b, l = [a; b].
Proof.
  destruct l as [|a [|b [|c l]]]; cbn; intros H; try discriminate.
  now exists a, b.
Qed.

Lemma length6_inv {A} (l : list A) :
  length l = 6%nat -> exists a b c d e f, l = [a; b; c; d; e; f].
Proof.
  destruct l as [|a [|b [|c [|d [|e [|f [|g l]]]]]]]; cbn; intros H;
    try discriminate.
  now exists a, b, c, d, e, f.
Qed.

Ltac shape_ok := split; [reflexivity | repeat constructor].

(** Every entry of a Jacobian block of an affine residual: split on the
    row and the column, then differentiate [b t + c]. *)
Ltac partials :=
  let i := fresh "i" in let j := fresh "j" in
  let Hi := fresh "Hi" in let Hj := fresh "Hj" in
  intros i j Hi Hj;
  destruct i as [|[|[|[|[|[|i]]]]]]; try lia;
  destruct j as [|[|[|[|[|[|j]]]]]]; try lia;
  cbn;
  match goal with
  | |- derivable_pt_lim ?f ?x ?l =>
      apply affine_derivative with (c := f x - l * x); intros; lra
  end.

(** C7: for the shapes of the Zermelo problem ([n_x = 6], [n_z = 2]),
    [twobc] returns a residual of six entries, [bcjac] returns four blocks
    of shapes 6x6, 6x6, 6x2 and 6x2, and the entries of these blocks are
    the partial derivatives of the entries of [twobc] with respect to the
    entries of [xp0], [xpT], [z0] and [zT]. *)
Theorem bcjac_is_jacobian_of_twobc (e : R) (xp0 xpT z0 zT : list R) :
  length xp0 = 6%nat -> length xpT = 6%nat ->
  length z0 = 2%nat -> length zT = 2%nat ->
  let self := set_eps init e in
  exists bc gx0 gxT gz0 gzT,
    twobc self xp0 xpT z0 zT = Some bc /\ length bc = 6%nat /\
    bcjac self xp0 xpT z0 zT = Some (gx0, gxT, gz0, gzT) /\
    is_jacobian (fun v => twobc self v xpT z0 zT) xp0 gx0 6 6 /\
    is_jacobian (fun v => twobc self xp0 v z0 zT) xpT gxT 6 6 /\
    is_jacobian (fun v => twobc self xp0 xpT v zT) z0 gz0 6 2 /\
    is_jacobian (fun v => twobc self xp0 xpT z0 v) zT gzT 6 2.
Proof.
  intros L0 LT Lz0 LzT self.
  destruct (length6_inv _ L0) as (a0 & a1 & a2 & a3 & a4 & a5 & ->).
  destruct (length6_inv _ LT) as (b0 & b1 & b2 & b3 & b4 & b5 & ->).
  destruct (length2_inv _ Lz0) as (c0 & c1 & ->).
  destruct (length2_inv _ LzT) as (d0 & d1 & ->).
  do 5 eexists.
  split; [cbn; reflexivity|].
  split; [reflexivity|].
  split; [cbn; reflexivity|].
  unfold is_jacobian.
  repeat match goal with |- _ /\ _ => split end;
    first [shape_ok | partials].
Qed.

Lemma bcjac_is_jacobian_of_twobc_witness :
  length [0; 0; 0; 0; 0; 0] = 6%nat /\
  length [20; 1; 0; 0; 0; 0] = 6%nat /\
  length [0; 0] = 2%nat /\
  let self := set_eps init 1 in
  let xp0 := [0; 0; 0; 0; 0; 0] in
  let xpT := [20; 1; 0; 0; 0; 0] in
  let z0 := [0; 0] in
  let zT := [0; 0] in
  exists bc gx0 gxT gz0 gzT,
    twobc self xp0 xpT z0 zT = Some bc /\ length bc = 6%nat /\
    bcjac self xp0 xpT z0 zT = Some (gx0, gxT, gz0, gzT) /\
    is_jacobian (fun v => twobc self v xpT z0 zT) xp0 gx0 6 6 /\
    is_jacobian (fun v => twobc self xp0 v z0 zT) xpT gxT 6 6 /\
    is_jacobian (fun v => twobc self xp0 xpT v zT) z0 gz0 6 2 /\
    is_jacobian (fun v => twobc self xp0 xpT z0 v) zT gzT 6 2.
Proof.
  repeat (split; [reflexivity|]).
  apply (bcjac_is_jacobian_of_twobc 1
           [0; 0; 0; 0; 0; 0] [20; 1; 0; 0; 0; 0] [0; 0] [0; 0]);
    reflexivity.
Defined.

(** The samples of [linspace] are strictly increasing when
    [start < stop]. *)
Lemma seq_sorted (a n : nat) : StronglySorted lt (seq a n).
Proof.
  revert a. induction n as [|n IH]; intros a; cbn; constructor.
  - apply IH.
  - apply Forall_forall. intros x Hx. apply in_seq in Hx. lia.
Qed.

Lemma map_sorted {A B} (ltA : A -> A -> Prop) (ltB : B -> B -> Prop)
  (f : A -> B) (l : list A) :
  (forall x y, In x l -> In y l -> ltA x y -> ltB (f x) (f y)) ->
  StronglySorted ltA l -> StronglySorted ltB (map f l).
Proof.
  intros Hf Hs. induction Hs as [|x l Hs IH Hx]; cbn; constructor.
  - apply IH. intros u v Hu Hv. apply Hf; now right.
  - apply Forall_forall. intros y Hy. apply in_map_iff in Hy.
    destruct Hy as (u & <- & Hu).
    apply Hf; [now left | now right |].
    rewrite Forall_forall in Hx. now apply Hx.
Qed.

Lemma linspace_increasing (start stop : R) (num : nat) :
  start < stop -> (2 <= num)%nat -> StronglySorted Rlt (linspace start stop num).
Proof.
  intros Hlt Hnum. unfold linspace.
  apply map_sorted with (ltA := lt); [|apply seq_sorted].
  intros i j _ _ Hij.
  assert (Hstep : 0 < (stop - start) / INR (num - 1)).
  { apply Rdiv_lt_0_compat; [lra|]. apply lt_0_INR. lia. }
  apply lt_INR in Hij. nra.
Qed.

Lemma linspace_length (start stop : R) (num : nat) :
  length (linspace start stop num) = num.
Proof. unfold linspace. now rewrite length_map, length_seq. Qed.

(** C8: [initialize] returns a time grid of 101 strictly increasing
    samples together with an [xp] block of shape (6, 101) and a [z] block
    of shape (2, 101), so that [xp.shape[1] == z.shape[1] == len(time)]. *)
Theorem initialize_trajectory_invariant (e : R) :
  let self := set_eps init e in
  exists time xp z,
    initialize self = Some (time, xp, z) /\
    length time = 101%nat /\
    StronglySorted Rlt time /\
    has_shape xp 6 (length time) /\
    has_shape z 2 (length time).
Proof.
  intros self.
  exists (linspace 0 1 101).
  do 2 eexists.
  split; [unfold initialize; cbn; reflexivity|].
  split; [apply linspace_length|].
  split; [apply linspace_increasing; [lra | lia]|].
  split; shape_ok.
Qed.

End ZermeloFacts.
(** ** The continuation driver *)

Section DriverFacts.
Import GoddardMain Continuation DriverSpec.
Local Open Scope string_scope.
Local Open Scope list_scope.
Local Open Scope Q_scope.

(** *** Projections of the world distribute over concatenation *)

Lemma solve_eps_app (w1 w2 : world) :
  solve_eps (w1 ++ w2) = solve_eps w1 ++ solve_eps w2.
Proof.
  induction w1 as [|e w1 IH]; [reflexivity|].
  destruct e; cbn; now rewrite ?IH.
Qed.

Lemma dumps_app (w1 w2 : world) : dumps (w1 ++ w2) = dumps w1 ++ dumps w2.
Proof.
  induction w1 as [|e w1 IH]; [reflexivity|].
  destruct e; cbn; now rewrite ?IH.
Qed.

Lemma timer_values_app (w1 w2 : world) :
  timer_values (w1 ++ w2) = timer_values w1 ++ timer_values w2.
Proof.
  induction w1 as [|e w1 IH]; [reflexivity|].
  destruct e; cbn; now rewrite ?IH.
Qed.

Lemma solves_app (w1 w2 : world) : solves (w1 ++ w2) = solves w1 ++ solves w2.
Proof. apply filter_app. Qed.

Lemma last_output_from_app (acc : option BVPSol) (w1 w2 : world) :
  last_output_from acc (w1 ++ w2) =
  last_output_from (last_output_from acc w1) w2.
Proof.
  revert acc. induction w1 as [|e w1 IH]; intros acc; [reflexivity|].
  destruct e; cbn; now rewrite ?IH.
Qed.

Lemma solve_eps_length (w : world) : length (solve_eps w) = length (solves w).
Proof.
  induction w as [|e w IH]; [reflexivity|].
  destruct e; cbn; now rewrite ?IH.
Qed.

Lemma elapsed_from_app (l : list Q) (acc ts0 ts1 : Q) (n : nat) :
  length l = (2 * n)%nat ->
  elapsed_from acc (l ++ [ts0; ts1]) = elapsed_from acc l + (ts1 - ts0).
Proof.
  revert l acc. induction n as [|n IH]; intros l acc Hl.
  - destruct l; [reflexivity | discriminate].
  - destruct l as [|a [|b l]]; cbn in Hl; try lia.
    cbn [app elapsed_from]. apply IH. lia.
Qed.

(** *** One pass through the loop body *)

Variable new_ocp : GoddardPrimalDual.
Variable initialize : GoddardPrimalDual -> array1 * array2 * array2.
Variable dyn_press : GoddardPrimalDual -> array1 -> array1 -> array1.
Variable solve : nat -> BVPSol -> GoddardPrimalDual -> BVPSol * Infos.
Variable clock : nat -> Q.

Local Abbreviation body := (GoddardMain.body dyn_press solve clock).
Local Abbreviation while_loop := (GoddardMain.while_loop dyn_press solve clock).
Local Abbreviation enter := (GoddardMain.enter new_ocp initialize).
Local Abbreviation main_primal_dual_from :=
  (GoddardMain.main_primal_dual_from new_ocp initialize dyn_press solve clock).
Local Abbreviation main_primal_dual :=
  (GoddardMain.main_primal_dual new_ocp initialize dyn_press solve clock).

Lemma body_inv (alpha tol : Q) (st : locals) (w w' : world) (r : result locals) :
  body alpha tol st w = (w', r) -> pass_spec alpha tol st w w' r.
Proof.
  unfold GoddardMain.body, bind, print, emit, dtime, call_solve,
    item2, row, index, bind, ret, raise, pass_spec.
  destruct (solve _ _ _) as [out infos] eqn:Hs. cbn -[nth_error].
  destruct (success infos) eqn:Hsucc; cbn -[nth_error];
    repeat match goal with
      | |- context [nth_error ?a ?i] =>
          destruct (nth_error a i) eqn:?; cbn -[nth_error]
      end;
    intros H; inversion H; subst; clear H;
    rewrite <- !app_assoc; cbn [app];
    eexists; exists out, infos; do 2 eexists;
    (split; [reflexivity|]); cbn; rewrite ?Hsucc; cbn;
    repeat split; auto.
Qed.

(** *** The loop invariant *)

Lemma geom_S (eps0 alpha : Q) (k : nat) :
  geom eps0 alpha (S k) = geom eps0 alpha k * alpha.
Proof. reflexivity. Qed.

Lemma loop_inv_enter (eps0 alpha tol : Q) :
  loop_inv eps0 alpha tol (enter eps0) [].
Proof.
  unfold GoddardMain.enter.
  destruct (initialize _) as [[t x] zz].
  unfold loop_inv, world_inv; cbn.
  repeat split; auto. intros; lia.
Qed.

Lemma world_inv_pass (eps0 alpha tol : Q) (st : locals) (w w' : world)
  (r : result locals) :
  loop_inv eps0 alpha tol st w -> convergence st = false ->
  pass_spec alpha tol st w w' r ->
  world_inv eps0 alpha tol w' /\
  length (solves w') = S (length (solves w)).
Proof.
  intros (Hw & Hf & He & Ho & Hi & Hc & Hconv & Hlast) Hnc
    (evs & out & infos & ts0 & ts1 & -> & Hs & Hse & Htv & Hd & Hfe & Hlo & Hr).
  destruct Hw as (Hw1 & Hw2 & Hw3 & Hw4).
  assert (Hn : length (solves (w ++ evs)) = S (length (solves w))).
  { rewrite solves_app, Hs, length_app. cbn. lia. }
  split; [|exact Hn].
  unfold world_inv. rewrite Hn.
  repeat split.
  - rewrite solve_eps_app, Hse, Hw1, seq_S, map_app. cbn.
    now rewrite Ho, He.
  - intros k Hk.
    destruct (Nat.eq_dec (S k) (length (solves w))) as [E|E].
    + rewrite <- E in Hconv. now rewrite <- Hconv.
    + apply Hw2. lia.
  - rewrite timer_values_app, length_app, Htv, Hw3. cbn. lia.
  - now rewrite dumps_app, Hw4, Hd.
Qed.

Lemma existsb_failed_app (w1 w2 : world) :
  existsb failed (w1 ++ w2) = existsb failed w1 || existsb failed w2.
Proof. apply existsb_app. Qed.

Lemma loop_inv_pass (eps0 alpha tol : Q) (st st' : locals) (w w' : world) :
  loop_inv eps0 alpha tol st w -> convergence st = false ->
  pass_spec alpha tol st w w' (Ok st') ->
  loop_inv eps0 alpha tol st' w'.
Proof.
  intros Hinv Hnc Hp.
  destruct (world_inv_pass _ _ _ _ _ _ _ Hinv Hnc Hp) as [Hw' Hn].
  destruct Hinv as (Hw & Hf & He & Ho & Hi & Hc & Hconv & Hlast).
  destruct Hp as
    (evs & out & infos & ts0 & ts1 & -> & Hs & Hse & Htv & Hd & Hfe & Hlo & Hr).
  destruct Hr as (Hsucc & He' & Ho' & Hc' & Hi' & Ht' & Hb & Htime & Hxp & Hz).
  destruct Hw as (Hw1 & Hw2 & Hw3 & Hw4).
  unfold loop_inv. rewrite Hn.
  repeat match goal with |- _ /\ _ => split end.
  - exact Hw'.
  - now rewrite existsb_failed_app, Hf, Hfe, Hsucc.
  - now rewrite He', He.
  - now rewrite Ho', He'.
  - rewrite Hi', Hi. lia.
  - rewrite Ht', Hc. unfold elapsed.
    rewrite timer_values_app, Htv.
    symmetry. eapply elapsed_from_app; eauto.
  - now rewrite Hc', He.
  - unfold last_output. rewrite last_output_from_app, Hlo. auto.
Qed.

Lemma while_loop_O (alpha tol : Q) (st : locals) (w : world) :
  while_loop alpha tol 0 st w =
  if convergence st then Some (w, Ok st) else None.
Proof. reflexivity. Qed.

Lemma while_loop_S (alpha tol : Q) (fuel : nat) (st : locals) (w : world) :
  while_loop alpha tol (S fuel) st w =
  if convergence st then Some (w, Ok st)
  else match body alpha tol st w with
       | (w', Ok st') => while_loop alpha tol fuel st' w'
       | (w', Raise e) => Some (w', Raise e)
       end.
Proof. reflexivity. Qed.

(** What is known when the loop is left, normally or by an exception. *)
Lemma while_loop_inv (eps0 alpha tol : Q) (fuel : nat) :
  forall (st : locals) (w w' : world) (r : result locals),
    loop_inv eps0 alpha tol st w ->
    while_loop alpha tol fuel st w = Some (w', r) ->
    match r with
    | Ok st' => loop_inv eps0 alpha tol st' w' /\ convergence st' = true
    | Raise e => loop_exit_raise eps0 alpha tol w' e
    end.
Proof.
  induction fuel as [|fuel IH]; intros st w w' r Hinv;
    rewrite ?while_loop_O, ?while_loop_S;
    destruct (convergence st) eqn:Hc;
    try (intros H; inversion H; subst; now split);
    try discriminate.
  destruct (body alpha tol st w) as [w1 [st1|e]] eqn:Hb;
    apply body_inv in Hb.
  - apply IH. eapply loop_inv_pass; eauto.
  - intros H; inversion H; subst; clear H.
    destruct (world_inv_pass _ _ _ _ _ _ _ Hinv Hc Hb) as [Hw' Hn].
    destruct Hinv as (Hw & Hf & _).
    destruct Hb as
      (evs & out & infos & ts0 & ts1 & -> & Hs & Hse & Htv & Hd & Hfe & Hlo & Hr).
    unfold loop_exit_raise. split; [exact Hw'|]. split; [lia|].
    rewrite existsb_failed_app, Hf, Hfe. cbn.
    destruct Hr as [[-> ->]|[-> ->]]; auto.
Qed.

(** *** After the loop *)

Lemma finish_inv (alpha : Q) (initial : pyobj) (st : locals) (w w' : world)
  (r : result pyobj) :
  finish alpha initial st w = (w', r) ->
  exists evs,
    w' = w ++ evs /\
    solves evs = [] /\ solve_eps evs = [] /\ timer_values evs = [] /\
    existsb failed evs = false /\
    (forall acc, last_output_from acc evs = acc) /\
    match r with
    | Ok v =>
        Qeq_bool alpha 0 = false /\
        v = optimal_solution alpha (eps st / alpha) st /\
        dumps evs = [(pickle_path, dict_save initial v);
                     (json_path, data_solution st)]
    | Raise e => e = ZeroDivisionError \/ e = IndexError
    end.
Proof.
  unfold finish, truediv, bind, print, emit, item2, item2_last, row, index,
    bind, ret, raise.
  destruct (Qeq_bool alpha 0) eqn:Ha; cbn -[nth_error Numpy.get_last].
  - intros H; inversion H; subst. exists []. rewrite app_nil_r.
    repeat split; auto.
  - repeat match goal with
      | |- context [nth_error ?a ?i] =>
          destruct (nth_error a i) eqn:?; cbn -[nth_error Numpy.get_last]
      | |- context [Numpy.get_last ?a] =>
          destruct (Numpy.get_last a) eqn:?; cbn -[nth_error Numpy.get_last]
      end;
    intros H; inversion H; subst; clear H;
    rewrite <- !app_assoc; cbn [app];
    eexists; (split; [reflexivity|]); cbn; repeat split; auto.
Qed.

(** *** Runs in which every solve succeeds *)

Lemma trajectory_shape (s : BVPSol) :
  is_trajectory 7 4 s = true ->
  exists x0 r0 r1 r2 x3 r3 r4 r5 r6 z0 z1 z2 z3,
    sol_xp s = [x0 :: r0; r1; r2; x3 :: r3; r4; r5; r6] /\
    sol_z s = [z0; z1; z2; z3].
Proof.
  unfold is_trajectory. destruct s as [t x zz]; cbn [sol_time sol_xp sol_z].
  rewrite !andb_true_iff, Nat.ltb_lt, !Nat.eqb_eq.
  intros [[[[Ht Hx] Hrx] Hz] _].
  destruct x as [|a0 [|a1 [|a2 [|a3 [|a4 [|a5 [|a6 [|]]]]]]]]; try discriminate.
  destruct zz as [|b0 [|b1 [|b2 [|b3 [|]]]]]; try discriminate.
  cbn in Hrx. rewrite !andb_true_iff, !Nat.eqb_eq in Hrx.
  destruct Hrx as (H0 & _ & _ & H3 & _).
  destruct a0 as [|x0 r0]; [cbn in H0; lia|].
  destruct a3 as [|x3 r3]; [cbn in H3; lia|].
  now exists x0, r0, a1, a2, x3, r3, a4, a5, a6, b0, b1, b2, b3.
Qed.

(** The locals hold a Trajectory of the Goddard problem. *)
Lemma body_total (alpha tol : Q) (st : locals) (w : world) :
  solver_succeeds solve ->
  exists w' st',
    body alpha tol st w = (w', Ok st') /\
    is_trajectory 7 4 (mkBVPSol (time st') (xp st') (z st')) = true.
Proof.
  intros Hs.
  unfold GoddardMain.body, bind, print, emit, dtime, call_solve,
    item2, row, index, bind, ret, raise.
  destruct (Hs (length (solves (((w ++ [EPrint [PStr "eps = "; PFloat (eps st)]])
              ++ [EPrint [PStr "alpha = "; PFloat alpha]])
              ++ [ETimer (clock (length (filter is_timer
                   ((w ++ [EPrint [PStr "eps = "; PFloat (eps st)]])
                      ++ [EPrint [PStr "alpha = "; PFloat alpha]]))))])))
              (bvp_sol st) (ocp st)) as [Hsucc Htraj].
  destruct (solve _ _ _) as [out infos] eqn:E. cbn in Hsucc, Htraj.
  cbn -[nth_error is_trajectory]. rewrite Hsucc. cbn -[nth_error is_trajectory].
  destruct (trajectory_shape _ Htraj)
    as (x0 & r0 & r1 & r2 & x3 & r3 & r4 & r5 & r6 & z0 & z1 & z2 & z3 & Hx & Hz).
  rewrite Hx, Hz. cbn -[is_trajectory].
  do 2 eexists. split; [reflexivity|]. cbn -[is_trajectory].
  rewrite <- Hx, <- Hz. now destruct out.
Qed.

Lemma finish_total (alpha : Q) (initial : pyobj) (st : locals) (w : world) :
  Qeq_bool alpha 0 = false ->
  is_trajectory 7 4 (mkBVPSol (time st) (xp st) (z st)) = true ->
  exists w' v, finish alpha initial st w = (w', Ok v).
Proof.
  intros Ha Ht.
  destruct (trajectory_shape _ Ht)
    as (x0 & r0 & r1 & r2 & x3 & r3 & r4 & r5 & r6 & z0 & z1 & z2 & z3 & Hx & Hz).
  cbn in Hx, Hz.
  unfold finish, truediv, bind, print, emit, item2, item2_last, row, index,
    bind, ret, raise.
  rewrite Ha, Hx, Hz. cbn. do 2 eexists. reflexivity.
Qed.

Lemma while_total (eps0 alpha tol : Q) (m : nat) :
  solver_succeeds solve ->
  Qle_bool (geom eps0 alpha m) tol = true ->
  forall (fuel : nat) (st : locals) (w : world),
    loop_inv eps0 alpha tol st w ->
    (m + 1 <= fuel + length (solves w))%nat ->
    exists w' st',
      while_loop alpha tol fuel st w = Some (w', Ok st') /\
      (st' = st \/
       is_trajectory 7 4 (mkBVPSol (time st') (xp st') (z st')) = true).
Proof.
  intros Hs Hm.
  assert (Hle : forall st w, loop_inv eps0 alpha tol st w ->
            convergence st = false -> (length (solves w) <= m)%nat).
  { intros st w (Hw & _ & _ & _ & _ & _ & Hconv & _) Hc.
    destruct Hw as (_ & Hw2 & _).
    destruct (le_lt_dec (length (solves w)) m) as [|Hlt]; [assumption|].
    exfalso.
    destruct (length (solves w)) as [|n]; [lia|].
    destruct (Nat.eq_dec m n) as [->|Hne].
    - congruence.
    - rewrite Hw2 in Hm by lia. discriminate. }
  induction fuel as [|fuel IH]; intros st w Hinv Hf;
    rewrite ?while_loop_O, ?while_loop_S;
    destruct (convergence st) eqn:Hc; eauto.
  - specialize (Hle _ _ Hinv Hc). lia.
  - destruct (body_total alpha tol st w Hs) as (w1 & st1 & Hb & Ht).
    rewrite Hb.
    assert (Hinv1 : loop_inv eps0 alpha tol st1 w1)
      by (eapply loop_inv_pass; eauto using body_inv).
    destruct (world_inv_pass _ _ _ _ _ _ _ Hinv Hc (body_inv _ _ _ _ _ _ Hb))
      as [_ Hn].
    destruct (IH st1 w1 Hinv1) as (w' & st' & Hw & [E|Hsh]); [lia| |];
      exists w', st'; subst; auto.
Qed.

(** *** Complete runs *)

Lemma main_primal_dual_from_eq (eps0 alpha tol : Q) (fuel : nat) :
  main_primal_dual_from eps0 alpha tol fuel =
  match while_loop alpha tol fuel (enter eps0) [] with
  | None => None
  | Some (w, Raise e) => Some (w, Raise e)
  | Some (w, Ok st) => Some (finish alpha (initial_solution (enter eps0)) st w)
  end.
Proof. reflexivity. Qed.

Lemma run_facts (eps0 alpha tol : Q) (fuel : nat) (w : world)
  (r : result pyobj) :
  main_primal_dual_from eps0 alpha tol fuel = Some (w, r) ->
  run_inv eps0 alpha tol w /\
  match r with
  | Ok v =>
      exists st w0,
        while_loop alpha tol fuel (enter eps0) [] = Some (w0, Ok st) /\
        return_spec eps0 alpha tol (initial_solution (enter eps0)) st w v
  | Raise e => raise_spec w e
  end.
Proof.
  rewrite main_primal_dual_from_eq.
  destruct (while_loop alpha tol fuel (enter eps0) [])
    as [[w0 [st|e]]|] eqn:Hloop; try discriminate.
  - apply (while_loop_inv eps0) in Hloop as Hx; [|apply loop_inv_enter].
    destruct Hx as [(Hw & Hf & He & Ho & Hi & Hc & Hconv & Hlast) Hcv].
    destruct Hw as (Hw1 & Hw2 & Hw3 & Hw4).
    destruct (finish alpha (initial_solution (enter eps0)) st w0)
      as [w1 r1] eqn:Hfin.
    intros H; inversion H; subst; clear H.
    apply finish_inv in Hfin.
    destruct Hfin as (evs & -> & Hs & Hse & Htv & Hfe & Hlo & Hr).
    assert (Hn : length (solves (w0 ++ evs)) = length (solves w0))
      by (rewrite solves_app, Hs, app_nil_r; reflexivity).
    rewrite Hcv in Hconv.
    destruct (length (solves w0)) as [|m] eqn:Hm; [discriminate|].
    assert (Hinv : run_inv eps0 alpha tol (w0 ++ evs)).
    { unfold run_inv. rewrite Hn, solve_eps_app, Hse, app_nil_r.
      repeat split; auto. lia. }
    split; [exact Hinv|].
    destruct r as [v|e].
    + destruct Hr as (Ha & -> & Hd).
      exists st, w0. split; [reflexivity|].
      unfold return_spec. rewrite Hn.
      replace (S m - 1)%nat with m by lia.
      repeat match goal with |- _ /\ _ => split end; auto.
      * now rewrite existsb_failed_app, Hf, Hfe.
      * rewrite Hc. unfold elapsed. now rewrite timer_values_app, Htv, app_nil_r.
      * unfold last_output in *. rewrite last_output_from_app, Hlo.
        destruct (last_output_from None w0) as [out|]; [|discriminate].
        exists out. tauto.
      * now rewrite dumps_app, Hw4, Hd.
    + right. rewrite existsb_failed_app, Hf, Hfe. split; [reflexivity|].
      tauto.
  - intros H; inversion H; subst; clear H.
    apply (while_loop_inv eps0 alpha tol) in Hloop; [|apply loop_inv_enter].
    destruct Hloop as ((Hw1 & Hw2 & Hw3 & Hw4) & Hn & Hr).
    split; [unfold run_inv; auto|].
    unfold raise_spec. destruct Hr as [[? ?]|[? ?]]; auto.
Qed.

Lemma run_total (eps0 alpha tol : Q) (m fuel : nat) :
  solver_succeeds solve ->
  Qeq_bool alpha 0 = false ->
  Qle_bool (geom eps0 alpha m) tol = true ->
  (m + 1 <= fuel)%nat ->
  exists w v, main_primal_dual_from eps0 alpha tol fuel = Some (w, Ok v).
Proof.
  intros Hs Ha Hm Hf.
  destruct (while_total eps0 alpha tol m Hs Hm fuel (enter eps0) [])
    as (w0 & st & Hloop & Hsh); [apply loop_inv_enter | cbn; lia |].
  rewrite main_primal_dual_from_eq, Hloop.
  apply (while_loop_inv eps0) in Hloop; [|apply loop_inv_enter].
  destruct Hloop as [_ Hcv].
  destruct Hsh as [->|Hsh].
  - unfold GoddardMain.enter in Hcv.
    destruct (initialize _) as [[? ?] ?]. discriminate.
  - destruct (finish_total alpha (initial_solution (enter eps0)) st w0 Ha Hsh)
      as (w & v & ->).
    now exists w, v.
Qed.

(** *** Runs that are bound to end *)



(** A pass calls the solver once, as its call number [length (solves w)],
    and raises when that call reports failure. *)
Lemma body_calls_solver (alpha tol : Q) (st : locals) (w w' : world)
  (r : result locals) :
  body alpha tol st w = (w', r) ->
  length (solves w') = S (length (solves w)) /\
  (success (snd (solve (length (solves w)) (bvp_sol st) (ocp st))) = false ->
   exists e, r = Raise e).
Proof.
  intros Hb. split.
  - apply body_inv in Hb.
    destruct Hb as (evs & out & infos & ts0 & ts1 & -> & Hs & _).
    rewrite solves_app, Hs, length_app. cbn. lia.
  - revert Hb.
    unfold GoddardMain.body, bind, print, emit, dtime, call_solve,
      item2, row, index, bind, ret, raise.
    rewrite !solves_app. cbn [solves filter is_solve]. rewrite !app_nil_r.
    destruct (solve _ _ _) as [out infos]. cbn -[nth_error].
    intros Hb Hf. rewrite Hf in Hb. cbn in Hb.
    inversion Hb; subst. eauto.
Qed.


(** *** The geometric sequence *)

Lemma geom_pow (eps0 alpha : Q) (k : nat) :
  geom eps0 alpha k == eps0 * alpha ^ Z.of_nat k.
Proof.
  induction k as [|k IH].
  - cbn. ring.
  - rewrite geom_S, IH, Nat2Z.inj_succ.
    unfold Z.succ. rewrite Qpower_plus' by lia.
    cbn. ring.
Qed.

Lemma nth_map_geom (eps0 alpha : Q) (n k : nat) :
  (k < n)%nat ->
  nth k (map (geom eps0 alpha) (seq 0 n)) 0 = geom eps0 alpha k.
Proof.
  intros Hk.
  rewrite (nth_indep _ 0 (geom eps0 alpha 0))
    by (now rewrite length_map, length_seq).
  rewrite map_nth, seq_nth by assumption. reflexivity.
Qed.

Lemma last_map_geom (eps0 alpha : Q) (n : nat) :
  last (map (geom eps0 alpha) (seq 0 (S n))) 0 = geom eps0 alpha n.
Proof. rewrite seq_S, map_app. cbn [map]. now rewrite last_last. Qed.

Lemma geom_pos (eps0 alpha : Q) (k : nat) :
  0 < eps0 -> 0 < alpha -> 0 < geom eps0 alpha k.
Proof.
  intros He Ha. induction k as [|k IH]; [exact He|].
  rewrite geom_S. now apply Qmult_lt_0_compat.
Qed.

Lemma last_solve_eps (eps0 alpha tol : Q) (w : world) :
  run_inv eps0 alpha tol w ->
  last (solve_eps w) 0 = geom eps0 alpha (length (solves w) - 1).
Proof.
  intros (Hn & Hs & _). rewrite Hs.
  destruct (length (solves w)) as [|n]; [lia|].
  rewrite last_map_geom. f_equal. lia.
Qed.

(** *** The constants of lines 31-33 *)

Lemma alpha_nonzero : Qeq_bool alpha 0 = false.
Proof. reflexivity. Qed.

Lemma below_tol_at_34 : Qle_bool (geom eps_0 alpha 34) tol = true.
Proof. vm_compute. reflexivity. Qed.

Lemma above_tol_before_34 (k : nat) :
  (k < 34)%nat -> Qle_bool (geom eps_0 alpha k) tol = false.
Proof.
  intros Hk.
  assert (H : forallb (fun k => negb (Qle_bool (geom eps_0 alpha k) tol))
                (seq 0 34) = true) by (vm_compute; reflexivity).
  rewrite forallb_forall in H.
  specialize (H k). rewrite in_seq in H.
  apply negb_true_iff, H. lia.
Qed.

(** A run that returns has made 35 passes. *)
Lemma passes_of_return (w : world) (st : locals) (initial v : pyobj) :
  run_inv eps_0 alpha tol w ->
  return_spec eps_0 alpha tol initial st w v ->
  length (solves w) = 35%nat.
Proof.
  intros (Hn & _ & Hlt) (_ & Hle & _).
  destruct (le_lt_dec (length (solves w)) 34) as [Hs|Hs].
  - rewrite above_tol_before_34 in Hle by lia. discriminate.
  - destruct (le_lt_dec (length (solves w)) 35) as [|Hb]; [lia|].
    pose proof below_tol_at_34 as H34.
    rewrite (Hlt 34%nat) in H34 by lia. discriminate.
Qed.

Lemma iteration_bound_value : iteration_bound = 34%Z.
Proof.
  unfold iteration_bound, Rceil.
  set (r := (ln (Q2R tol / Q2R eps_0) / ln (Q2R alpha))%R).
  assert (Hr : (33 < r <= 34)%R).
  { assert (H2 : (0 < ln 2)%R) by (rewrite <- ln_1; apply ln_increasing; lra).
    assert (E : r = (ln (10 ^ 10) / ln 2)%R).
    { assert (Et : (Q2R tol / Q2R eps_0 = / 10 ^ 10)%R)
        by (unfold tol, eps_0, Q2R; cbn; field).
      assert (Ea : Q2R alpha = (/ 2)%R) by (unfold alpha, Q2R; cbn; field).
      unfold r. rewrite Et, Ea, !ln_Rinv by lra. field. lra. }
    rewrite E.
    assert (Hlo : (33 * ln 2 < ln (10 ^ 10))%R).
    { replace (33 * ln 2)%R with (ln (2 ^ 33)) by (rewrite ln_pow by lra; cbn; lra).
      apply ln_increasing; lra. }
    assert (Hhi : (ln (10 ^ 10) <= 34 * ln 2)%R).
    { replace (34 * ln 2)%R with (ln (2 ^ 34)) by (rewrite ln_pow by lra; cbn; lra).
      left. apply ln_increasing; lra. }
    split.
    - apply Rmult_lt_reg_r with (ln 2); [assumption|].
      unfold Rdiv. rewrite Rmult_assoc, Rinv_l by lra. lra.
    - apply Rmult_le_reg_r with (ln 2); [assumption|].
      unfold Rdiv. rewrite Rmult_assoc, Rinv_l by lra. lra. }
  unfold Int_part.
  rewrite <- (up_tech (- r) (-34)); [reflexivity | |]; cbn; lra.
Qed.

(** *** Trajectories that can be read *)

Lemma has_row_true (a : array2) (i : nat) :
  has_row a i = true -> exists r, nth_error a i = Some r.
Proof.
  unfold has_row. destruct (nth_error a i) as [r|]; [eauto | discriminate].
Qed.

Lemma has_item_true (a : array2) (i : nat) :
  has_item a i = true -> exists x r, nth_error a i = Some (x :: r).
Proof.
  unfold has_item. destruct (nth_error a i) as [[|x r]|];
    try discriminate. eauto.
Qed.

Lemma readable_reads (s : BVPSol) :
  readable s = true ->
  exists x3 r3 x0 r0 r1 r2 r4 r5 r6 z0 z1 z2 z3,
    nth_error (sol_xp s) 3 = Some (x3 :: r3) /\
    nth_error (sol_xp s) 0 = Some (x0 :: r0) /\
    nth_error (sol_xp s) 1 = Some r1 /\
    nth_error (sol_xp s) 2 = Some r2 /\
    nth_error (sol_xp s) 4 = Some r4 /\
    nth_error (sol_xp s) 5 = Some r5 /\
    nth_error (sol_xp s) 6 = Some r6 /\
    nth_error (sol_z s) 0 = Some z0 /\
    nth_error (sol_z s) 1 = Some z1 /\
    nth_error (sol_z s) 2 = Some z2 /\
    nth_error (sol_z s) 3 = Some z3.
Proof.
  unfold readable. rewrite !andb_true_iff.
  intros [[[[[[[[[[[H3 _] H1] H2] Hz0] H4] H5] H6] Hz1] Hz2] Hz3] H0].
  apply has_item_true in H3, H0.
  apply has_row_true in H1, H2, H4, H5, H6, Hz0, Hz1, Hz2, Hz3.
  destruct H3 as (x3 & r3 & H3). destruct H0 as (x0 & r0 & H0).
  destruct H1 as (r1 & H1). destruct H2 as (r2 & H2).
  destruct H4 as (r4 & H4). destruct H5 as (r5 & H5).
  destruct H6 as (r6 & H6). destruct Hz0 as (z0 & Hz0).
  destruct Hz1 as (z1 & Hz1). destruct Hz2 as (z2 & Hz2).
  destruct Hz3 as (z3 & Hz3).
  exists x3, r3, x0, r0, r1, r2, r4, r5, r6, z0, z1, z2, z3. tauto.
Qed.

(** The events of a pass, and why it raises when it does. *)
Lemma body_events (alpha tol : Q) (st : locals) (w w' : world)
  (r : result locals) :
  body alpha tol st w = (w', r) ->
  exists out infos ts0 ts1 tail,
    w' = (w ++ [EPrint [PStr "eps = "; PFloat (eps st)];
                EPrint [PStr "alpha = "; PFloat alpha];
                ETimer ts0])
           ++ [ESolve (bvp_sol st) (ocp st) out infos; ETimer ts1] ++ tail /\
    match r with
    | Ok _ => success infos = true /\ tail = [EPrint [PStr " "]]
    | Raise e =>
        tail = [] /\
        ((success infos = false /\ e = Exception failure_message) \/
         (success infos = true /\ e = IndexError /\ readable out = false))
    end.
Proof.
  unfold GoddardMain.body, bind, print, emit, dtime, call_solve,
    item2, row, index, bind, ret, raise.
  destruct (solve _ _ _) as [out infos] eqn:Hs. cbn -[nth_error].
  destruct (success infos) eqn:Hsucc; cbn -[nth_error];
    repeat match goal with
      | |- context [nth_error ?a ?i] =>
          destruct (nth_error a i) eqn:?; cbn -[nth_error]
      end;
    intros H; inversion H; subst; clear H;
    exists out, infos; do 2 eexists;
    (first [ exists [EPrint [PStr " "]];
             split; [rewrite <- !app_assoc; reflexivity|]
           | exists [];
             split; [rewrite <- !app_assoc; reflexivity|] ]);
    auto.
  all: split; [reflexivity|]; right; split; [assumption|];
    split; [reflexivity|].
  all: destruct (readable out) eqn:Hr; [exfalso | reflexivity];
    destruct (readable_reads _ Hr)
      as (x3 & r3 & x0 & r0 & r1 & r2 & r4 & r5 & r6 & z0 & z1 & z2 & z3
          & E3 & E0 & E1 & E2 & E4 & E5 & E6 & F0 & F1 & F2 & F3);
    try congruence.
  match goal with
  | H : nth_error (sol_xp out) 3 = Some ?l |- _ =>
      rewrite H in E3; injection E3 as ->
  end.
  discriminate.
Qed.

Lemma finish_readable (alpha : Q) (initial : pyobj) (st : locals)
  (w : world) :
  Qeq_bool alpha 0 = false ->
  readable (mkBVPSol (time st) (xp st) (z st)) = true ->
  exists w' v, finish alpha initial st w = (w', Ok v).
Proof.
  intros Ha Hr.
  destruct (readable_reads _ Hr)
    as (x3 & r3 & x0 & r0 & r1 & r2 & r4 & r5 & r6 & z0 & z1 & z2 & z3
        & E3 & E0 & E1 & E2 & E4 & E5 & E6 & F0 & F1 & F2 & F3).
  cbn [sol_xp sol_z] in E3, E0, F0.
  unfold finish, truediv, bind, print, emit, item2, item2_last, row, index,
    bind, ret, raise.
  rewrite Ha, E3, E0, F0. cbn. do 2 eexists. reflexivity.
Qed.

(** Why [finish] raises when it does. *)
Lemma finish_raise (alpha : Q) (initial : pyobj) (st : locals) (w w' : world)
  (e : exn) :
  finish alpha initial st w = (w', Raise e) ->
  (e = ZeroDivisionError /\ Qeq_bool alpha 0 = true) \/
  (e = IndexError /\
   readable (mkBVPSol (time st) (xp st) (z st)) = false).
Proof.
  destruct (Qeq_bool alpha 0) eqn:Ha.
  - unfold finish, truediv, bind, raise. rewrite Ha.
    intros H; inversion H. auto.
  - intros H. right.
    pose proof H as H'. apply finish_inv in H'.
    destruct H' as (evs & _ & _ & _ & _ & _ & _ & [->| ->]).
    + revert H. unfold finish, truediv, bind, raise. rewrite Ha. cbn.
      unfold print, emit, item2, item2_last, row, index, bind, ret, raise.
      cbn -[nth_error Numpy.get_last].
      repeat match goal with
        | |- context [nth_error ?a ?i] =>
            destruct (nth_error a i) eqn:?; cbn -[nth_error Numpy.get_last]
        | |- context [Numpy.get_last ?a] =>
            destruct (Numpy.get_last a) eqn:?; cbn -[nth_error Numpy.get_last]
        end; intros H; inversion H.
    + split; [reflexivity|].
      destruct (readable _) eqn:Hr; [exfalso | reflexivity].
      destruct (finish_readable alpha initial st w Ha Hr) as (w1 & v & E).
      rewrite E in H. discriminate.
Qed.

(** *** Every run ends *)

(** While the loop has not converged, fewer solves were made than it
    takes to reach [tol]. *)
Lemma not_converged_bound (eps0 alpha tol : Q) (m : nat) (st : locals)
  (w : world) :
  Qle_bool (geom eps0 alpha m) tol = true ->
  loop_inv eps0 alpha tol st w ->
  convergence st = false ->
  (length (solves w) <= m)%nat.
Proof.
  intros Hm (Hw & _ & _ & _ & _ & _ & Hconv & _) Hc.
  destruct Hw as (_ & Hw2 & _).
  destruct (le_lt_dec (length (solves w)) m) as [|Hlt]; [assumption|].
  exfalso.
  destruct (length (solves w)) as [|n]; [lia|].
  destruct (Nat.eq_dec m n) as [->|Hne].
  - congruence.
  - rewrite Hw2 in Hm by lia. discriminate.
Qed.

Lemma while_ends (eps0 alpha tol : Q) (m : nat) :
  Qle_bool (geom eps0 alpha m) tol = true ->
  forall (fuel : nat) (st : locals) (w : world),
    loop_inv eps0 alpha tol st w ->
    (m + 1 <= fuel + length (solves w))%nat ->
    exists w' r, while_loop alpha tol fuel st w = Some (w', r).
Proof.
  intros Hm.
  induction fuel as [|fuel IH]; intros st w Hinv Hf;
    rewrite ?while_loop_O, ?while_loop_S;
    destruct (convergence st) eqn:Hc; eauto.
  - pose proof (not_converged_bound _ _ _ _ _ _ Hm Hinv Hc). lia.
  - destruct (body alpha tol st w) as [w1 [st1|e]] eqn:Hb; eauto.
    apply body_inv in Hb.
    assert (Hinv1 : loop_inv eps0 alpha tol st1 w1)
      by (eapply loop_inv_pass; eauto).
    destruct (world_inv_pass _ _ _ _ _ _ _ Hinv Hc Hb) as [_ Hn].
    apply IH; [exact Hinv1 | lia].
Qed.

(** With room for 35 passes the run ends, whatever the solver does. *)
Lemma run_ends (fuel : nat) :
  (35 <= fuel)%nat ->
  exists w r, main_primal_dual fuel = Some (w, r).
Proof.
  intros Hf. unfold GoddardMain.main_primal_dual.
  rewrite main_primal_dual_from_eq.
  destruct (while_ends eps_0 alpha tol 34 below_tol_at_34 fuel (enter eps_0) [])
    as (w0 & [st|e] & ->); [apply loop_inv_enter | cbn; lia | |]; eauto.
  destruct (finish alpha (initial_solution (enter eps_0)) st w0) as [w r].
  eauto.
Qed.

(** *** How a run can raise *)

Lemma last_output_in (w : world) (acc : option BVPSol) (out : BVPSol) :
  last_output_from acc w = Some out ->
  acc = Some out \/ In out (outputs w).
Proof.
  revert acc. induction w as [|e w IH]; intros acc H; [now left|].
  destruct e; cbn in *;
    try (destruct (IH _ H) as [?|?]; [now left | now right]).
  destruct (IH _ H) as [E|?]; [|now right; right].
  injection E as ->. right. now left.
Qed.

Lemma outputs_app (w1 w2 : world) : outputs (w1 ++ w2) = outputs w1 ++ outputs w2.
Proof.
  induction w1 as [|e w1 IH]; [reflexivity|].
  destruct e; cbn; now rewrite ?IH.
Qed.

(** An exception leaves the loop right after a solve. *)
Lemma while_loop_raise (eps0 alpha tol : Q) (fuel : nat) :
  forall (st : locals) (w w' : world) (e : exn),
    loop_inv eps0 alpha tol st w ->
    while_loop alpha tol fuel st w = Some (w', Raise e) ->
    exists infos out,
      ends_with_solve w' infos out /\
      ((success infos = false /\ e = Exception failure_message) \/
       (success infos = true /\ e = IndexError /\ readable out = false)).
Proof.
  induction fuel as [|fuel IH]; intros st w w' e Hinv;
    rewrite ?while_loop_O, ?while_loop_S;
    destruct (convergence st) eqn:Hc; try discriminate.
  destruct (body alpha tol st w) as [w1 [st1|e1]] eqn:Hb.
  - apply body_inv in Hb. apply IH. eapply loop_inv_pass; eauto.
  - intros H; inversion H; subst; clear H.
    destruct Hinv as (_ & Hf & _).
    apply body_events in Hb.
    destruct Hb as (out & infos & ts0 & ts1 & tail & -> & -> & Hr).
    exists infos, out. split; [|exact Hr].
    eexists _, (bvp_sol st), (ocp st), ts1. split; [reflexivity|].
    rewrite existsb_app, Hf. reflexivity.
Qed.

(** An exception leaves the run either right after a solve, or from the
    reads of [finish] on a trajectory that lacks a row or a column. *)
Lemma run_raise (fuel : nat) (w : world) (e : exn) :
  main_primal_dual fuel = Some (w, Raise e) ->
  (exists infos out,
     ends_with_solve w infos out /\
     ((success infos = false /\ e = Exception failure_message) \/
      (success infos = true /\ e = IndexError /\ readable out = false))) \/
  (e = IndexError /\ existsb failed w = false /\
   exists out, In out (outputs w) /\ readable out = false).
Proof.
  unfold GoddardMain.main_primal_dual.
  rewrite main_primal_dual_from_eq.
  destruct (while_loop alpha tol fuel (enter eps_0) [])
    as [[w0 [st|e0]]|] eqn:Hloop; try discriminate.
  - destruct (finish alpha (initial_solution (enter eps_0)) st w0)
      as [w1 r1] eqn:Hfin.
    intros H; inversion H; subst; clear H. right.
    apply (while_loop_inv eps_0) in Hloop; [|apply loop_inv_enter].
    destruct Hloop as [(_ & Hf & _ & _ & _ & _ & Hconv & Hlast) Hcv].
    pose proof Hfin as Hev. apply finish_inv in Hev.
    destruct Hev as (evs & -> & _ & _ & _ & Hfe & _).
    apply finish_raise in Hfin.
    destruct Hfin as [[_ Ha]|[-> Hr]];
      [pose proof alpha_nonzero; congruence|].
    split; [reflexivity|].
    split; [now rewrite existsb_failed_app, Hf, Hfe|].
    destruct (last_output w0) as [out|] eqn:Hlo.
    + exists out. split.
      * rewrite outputs_app. apply in_or_app. left.
        unfold last_output in Hlo. apply last_output_in in Hlo.
        destruct Hlo as [?|?]; [discriminate | assumption].
      * destruct Hlast as (_ & Ht & Hx & Hz). destruct out as [t x zz].
        cbn in Ht, Hx, Hz. now rewrite Ht, Hx, Hz in Hr.
    + rewrite Hlast, Hcv in Hconv. discriminate.
  - intros H; inversion H; subst; clear H. left.
    apply (while_loop_raise eps_0) in Hloop; [|apply loop_inv_enter].
    exact Hloop.
Qed.

(** *** The driver against its specification *)

(** C3, as the code has it: with room for 35 passes the run ends,
    whatever the solver does.  It ends with the exception
    [Exception(failure_message)], whose only content is the fixed message,
    exactly when one of its solves reported failure.  In that case the
    failed solve is the last thing the run did but for the second reading
    of the timer, no solve before it had failed, and nothing has been
    written to a file. *)
Theorem solve_failure_raises_message_only (fuel : nat) :
  (35 <= fuel)%nat ->
  exists w r,
    main_primal_dual fuel = Some (w, r) /\
    (existsb failed w = true <-> r = Raise (Exception failure_message)) /\
    (existsb failed w = true ->
     dumps w = [] /\
     exists infos out, ends_with_solve w infos out /\ success infos = false).
Proof.
  intros Hf.
  destruct (run_ends fuel Hf) as (w & r & Hrun).
  exists w, r. split; [exact Hrun|].
  pose proof Hrun as Hfacts. apply run_facts in Hfacts.
  destruct Hfacts as [_ Hr].
  destruct r as [v|e].
  - destruct Hr as (st & w0 & _ & Hf' & _).
    rewrite Hf'. split; [split; discriminate | discriminate].
  - apply run_raise in Hrun.
    destruct Hr as [(Hf' & -> & Hd)|(Hf' & [->| ->])]; rewrite Hf';
      (split; [split; (reflexivity || discriminate) | try discriminate]).
    intros _. split; [exact Hd|].
    destruct Hrun as [(infos & out & Hend & [[Hs _]|(_ & He & _)])
                     |(He & _)]; try discriminate.
    now exists infos, out.
Qed.

(** C4, as the code has it: a run that returns has written two documents.
    The pickled one holds, under [optimal_solution], the value returned,
    in which [time], [xp] and [z] are the trajectory of the final solve,
    [eps] is the parameter of the final solve, [exec_time] is the time
    spent in the solver and [iter] is the number of passes; the value
    returned also holds [alpha], and the pickled document also holds the
    initial guess under [initial_solution].  The JSON one holds the three
    arrays of that trajectory under [t], [xp] and [z], and nothing else. *)
Theorem persisted_documents_content (fuel : nat) (w : world) (v : pyobj) :
  main_primal_dual fuel = Some (w, Ok v) ->
  exists out pickled recorded,
    last_output w = Some out /\
    dumps w =
      [(pickle_path, pickled);
       (json_path, PDict [("t", PArr1 (sol_time out));
                          ("xp", PArr2 (sol_xp out));
                          ("z", PArr2 (sol_z out))])] /\
    getitem "optimal_solution" pickled = Some v /\
    getitem "initial_solution" pickled = Some (initial_solution (enter eps_0)) /\
    getitem "time" v = Some (PArr1 (sol_time out)) /\
    getitem "xp" v = Some (PArr2 (sol_xp out)) /\
    getitem "z" v = Some (PArr2 (sol_z out)) /\
    getitem "eps" v = Some (PFloat recorded) /\
    recorded == last (solve_eps w) 0 /\
    getitem "alpha" v = Some (PFloat alpha) /\
    getitem "exec_time" v = Some (PFloat (elapsed w)) /\
    getitem "iter" v = Some (PInt (Z.of_nat (length (solves w)))).
Proof.
  intros Hrun. apply run_facts in Hrun. destruct Hrun as [Hinv Hr].
  destruct Hr as (st & w0 & _ & Hret).
  pose proof (passes_of_return _ _ _ _ Hinv Hret) as Hn.
  pose proof (last_solve_eps _ _ _ _ Hinv) as Hlast.
  destruct Hret as (_ & _ & _ & He & _ & Hi & Hc & (out & Hlo & Ht & Hx & Hz)
                    & -> & Hd).
  exists out, (dict_save (initial_solution (enter eps_0))
                 (optimal_solution alpha (eps st / alpha) st)),
    (eps st / alpha).
  unfold data_solution in Hd. rewrite Ht, Hx, Hz in Hd.
  repeat match goal with |- _ /\ _ => split end;
    try assumption; cbn [getitem lookup optimal_solution dict_save];
    cbn; try congruence.
  rewrite Hlast, He, Hn. cbn [Nat.sub]. rewrite geom_S.
  apply Qdiv_mult_l. discriminate.
Qed.

(** A run that ends has made at most 35 passes. *)
Lemma passes_at_most (w : world) :
  run_inv eps_0 alpha tol w -> (length (solves w) <= 35)%nat.
Proof.
  intros (_ & _ & Hlt).
  destruct (le_lt_dec (length (solves w)) 35) as [|Hb]; [assumption|].
  pose proof below_tol_at_34 as H34.
  rewrite (Hlt 34%nat) in H34 by lia. discriminate.
Qed.

(** A run in which no solve failed and every trajectory handed back could
    be read has returned. *)
Lemma readable_run_returns (fuel : nat) (w : world) (r : result pyobj) :
  main_primal_dual fuel = Some (w, r) ->
  existsb failed w = false ->
  forallb readable (outputs w) = true ->
  exists v, r = Ok v.
Proof.
  intros Hrun Hf Hread. destruct r as [v|e]; [eauto|]. exfalso.
  rewrite forallb_forall in Hread.
  apply run_raise in Hrun.
  destruct Hrun as [(infos & out & (w0 & sol & o & ts1 & -> & Hf0) & Hc)
                   |(_ & _ & out & Hin & Hr)].
  - rewrite existsb_failed_app, Hf0 in Hf. cbn in Hf.
    rewrite orb_false_r in Hf. apply negb_false_iff in Hf.
    destruct Hc as [[Hs _]|(_ & _ & Hr)]; [congruence|].
    rewrite Hread in Hr; [discriminate|].
    rewrite outputs_app. apply in_or_app. right. now left.
  - rewrite Hread in Hr; [discriminate | exact Hin].
Qed.

(** C5, as the code has it: with room for 35 passes the run ends,
    whatever the solver does, after at most
    [iteration_bound + 1 = 35] passes, one more than the bound
    [ceil(log(tol / eps_0) / log(alpha)) = 34].  A run that returns has
    made exactly 35 passes, which is what the returned record stores
    under [iter]; and the run returns when none of its solves failed and
    every trajectory handed back holds the rows that the driver reads. *)
Theorem loop_terminates_one_pass_after_bound (fuel : nat) :
  (35 <= fuel)%nat ->
  exists w r,
    main_primal_dual fuel = Some (w, r) /\
    iteration_bound = 34%Z /\
    (Z.of_nat (length (solves w)) <= iteration_bound + 1)%Z /\
    (forall v, r = Ok v ->
       Z.of_nat (length (solves w)) = (iteration_bound + 1)%Z /\
       getitem "iter" v = Some (PInt (iteration_bound + 1))) /\
    (existsb failed w = false -> forallb readable (outputs w) = true ->
     exists v, r = Ok v).
Proof.
  intros Hf.
  destruct (run_ends fuel Hf) as (w & r & Hrun).
  exists w, r. split; [exact Hrun|].
  pose proof Hrun as Hfacts. apply run_facts in Hfacts.
  destruct Hfacts as [Hinv Hr].
  rewrite iteration_bound_value.
  split; [reflexivity|].
  split; [pose proof (passes_at_most _ Hinv); lia|].
  split; [|now apply (readable_run_returns fuel)].
  intros v ->. destruct Hr as (st & w0 & _ & Hret).
  pose proof (passes_of_return _ _ _ _ Hinv Hret) as Hn.
  destruct Hret as (_ & _ & _ & _ & _ & Hi & _ & _ & -> & _).
  rewrite Hn. cbn [getitem lookup optimal_solution].
  rewrite Hi, Hn. split; reflexivity.
Qed.

(** C6: with room for 35 passes the run ends, whatever the solver does,
    and of every such run the following holds.  The contract handed to
    solve number [k] holds [eps_0 * alpha^k]; each of these values is
    [alpha] times the one before and strictly below it; every solve that
    was followed by another one had its value above [tol], so that the
    loop is left once a solve with a value at most [tol] is through; at
    most 35 solves are made.  A run that returns has made 35 solves, the
    last one with a value at most [tol]; and the run returns when none of
    its solves failed and every trajectory handed back holds the rows
    that the driver reads. *)
Theorem continuation_parameter_is_geometric (fuel : nat) :
  (35 <= fuel)%nat ->
  exists w r,
    main_primal_dual fuel = Some (w, r) /\
    (1 <= length (solve_eps w) <= 35)%nat /\
    (forall k, (k < length (solve_eps w))%nat ->
       nth k (solve_eps w) 0 == eps_0 * alpha ^ Z.of_nat k) /\
    (forall k, (S k < length (solve_eps w))%nat ->
       nth (S k) (solve_eps w) 0 == nth k (solve_eps w) 0 * alpha /\
       nth (S k) (solve_eps w) 0 < nth k (solve_eps w) 0) /\
    (forall k, (S k < length (solve_eps w))%nat ->
       Qle_bool (nth k (solve_eps w) 0) tol = false) /\
    (forall v, r = Ok v ->
       length (solve_eps w) = 35%nat /\
       Qle_bool (nth 34 (solve_eps w) 0) tol = true) /\
    (existsb failed w = false -> forallb readable (outputs w) = true ->
     exists v, r = Ok v).
Proof.
  intros Hf.
  destruct (run_ends fuel Hf) as (w & r & Hrun).
  exists w, r. split; [exact Hrun|].
  pose proof Hrun as Hfacts. apply run_facts in Hfacts.
  destruct Hfacts as [Hinv Hr].
  pose proof (passes_at_most _ Hinv) as Hmax.
  pose proof Hinv as (Hn & Hse & Hlt).
  rewrite solve_eps_length.
  split; [lia|].
  split; [|split; [|split; [|split]]].
  - intros k Hk. rewrite Hse, nth_map_geom by assumption. apply geom_pow.
  - intros k Hk. rewrite Hse, !nth_map_geom by lia. rewrite geom_S.
    split; [reflexivity|].
    assert (Hp : 0 < geom eps_0 alpha k) by (now apply geom_pos).
    apply Qlt_le_trans with (geom eps_0 alpha k * 1).
    + apply Qmult_lt_l; [exact Hp | reflexivity].
    + rewrite Qmult_1_r. apply Qle_refl.
  - intros k Hk. rewrite Hse, nth_map_geom by lia. now apply Hlt.
  - intros v ->. destruct Hr as (st & w0 & _ & Hret).
    pose proof (passes_of_return _ _ _ _ Hinv Hret) as H35.
    split; [exact H35|].
    rewrite Hse, H35, nth_map_geom by lia. apply below_tol_at_34.
  - now apply (readable_run_returns fuel).
Qed.


(** C10: when the run returns, the [eps] stored in the record that is
    returned and pickled under [optimal_solution] is [eps / alpha] for the
    driver's final [eps]; as a number it is the parameter held by the
    contract at the final solve, while the driver's [eps] and the parameter
    stored in the contract are both that value times [alpha]. *)
Theorem recorded_eps_is_eps_of_final_solve (fuel : nat) (w : world)
  (v : pyobj) :
  main_primal_dual fuel = Some (w, Ok v) ->
  exists st w0 pickled recorded,
    while_loop alpha tol fuel (enter eps_0) [] = Some (w0, Ok st) /\
    In (pickle_path, pickled) (dumps w) /\
    getitem "optimal_solution" pickled = Some v /\
    getitem "eps" v = Some (PFloat recorded) /\
    recorded = eps st / alpha /\
    recorded == last (solve_eps w) 0 /\
    eps st == last (solve_eps w) 0 * alpha /\
    ocp_eps (ocp st) = eps st.
Proof.
  intros Hrun. apply run_facts in Hrun. destruct Hrun as [Hinv Hr].
  destruct Hr as (st & w0 & Hloop & Hret).
  pose proof (passes_of_return _ _ _ _ Hinv Hret) as Hn.
  pose proof (last_solve_eps _ _ _ _ Hinv) as Hlast.
  destruct Hret as (_ & _ & _ & He & Ho & _ & _ & _ & -> & Hd).
  exists st, w0,
    (dict_save (initial_solution (enter eps_0))
       (optimal_solution alpha (eps st / alpha) st)),
    (eps st / alpha).
  split; [exact Hloop|].
  split; [rewrite Hd; now left|].
  do 3 (split; [reflexivity|]).
  rewrite Hlast, He, Hn. cbn [Nat.sub]. rewrite geom_S.
  split; [|split].
  - apply Qdiv_mult_l. discriminate.
  - reflexivity.
  - now rewrite Ho, He, Hn.
Qed.

End DriverFacts.

(** ** Runs with the sample collaborators *)

Section DriverRuns.
Import GoddardMain Continuation DriverSpec Samples.
Local Open Scope string_scope.
Local Open Scope list_scope.
Local Open Scope Q_scope.

Lemma ideal_solve_succeeds : solver_succeeds ideal_solve.
Proof. intros k s o. split; reflexivity. Qed.

(** C3, as the specification has it, fails: a run whose first solve fails
    and a run whose second solve fails raise the same exception, although
    they fail with different trajectories and different [eps] in hand; so
    nothing computed from the exception gives these back. *)
Lemma failure_payload_not_recoverable :
  ~ exists payload, failure_carries_payload payload.
Proof.
  intros [payload H].
  pose proof (H new_ocp initialize dyn_press (fails_at 0) clock 1%nat
                _ _ guess 1 eq_refl eq_refl) as H0.
  pose proof (H new_ocp initialize dyn_press (fails_at 1) clock 2%nat
                _ _ trajectory (1 * (1 # 2)) eq_refl eq_refl) as H1.
  rewrite H0 in H1. discriminate.
Qed.

(** C4, as the specification has it, fails: the JSON document of a run
    with the ideal solver stores no number at all, hence neither [eps],
    nor the elapsed time, nor the iteration count. *)
Lemma json_document_lacks_scalars : ~ every_document_holds_record.
Proof.
  intros H.
  destruct (run_total new_ocp initialize dyn_press ideal_solve clock
              eps_0 alpha tol 34 35 ideal_solve_succeeds alpha_nonzero
              below_tol_at_34) as (w & v & Hrun); [lia|].
  pose proof Hrun as Hf. apply run_facts in Hf.
  destruct Hf as [_ (st & w0 & _ & Hret)].
  destruct Hret as (_ & _ & _ & _ & _ & _ & _ & _ & _ & Hd).
  destruct (H _ _ _ _ _ _ _ _ json_path (data_solution st) Hrun)
    as (out & e & _ & _ & _ & _ & Hin & _).
  - rewrite Hd. right. now left.
  - cbn in Hin. intuition discriminate.
Qed.

(** C5, as the specification has it, fails: the bound is 34, and no run
    with the ideal solver returns within 34 passes. *)
Lemma bound_is_one_pass_short :
  iteration_bound = 34%Z /\ ~ loop_terminates_within iteration_bound.
Proof.
  split; [exact iteration_bound_value|].
  intros H.
  destruct (H new_ocp initialize dyn_press ideal_solve clock
              ideal_solve_succeeds) as (fuel & w & v & Hrun & Hle).
  apply run_facts in Hrun. destruct Hrun as [Hinv (st & w0 & _ & Hret)].
  rewrite (passes_of_return _ _ _ _ Hinv Hret), iteration_bound_value in Hle.
  lia.
Qed.

(** *** Instances *)

Lemma solve_failure_raises_message_only_witness :
  (35 <= 35)%nat /\
  exists w,
    main_primal_dual new_ocp initialize dyn_press (fails_at 1) clock 35
      = Some (w, Raise (Exception failure_message)) /\
    existsb failed w = true /\
    dumps w = [] /\
    exists infos out, ends_with_solve w infos out /\ success infos = false.
Proof.
  split; [lia|].
  destruct (solve_failure_raises_message_only
              new_ocp initialize dyn_press (fails_at 1) clock 35 (le_n 35))
    as (w & r & Hrun & Hiff & Hstop).
  pose proof Hrun as E. vm_compute in E. injection E as Ew Er.
  assert (Hfail : existsb failed w = true)
    by (rewrite <- Ew; vm_compute; reflexivity).
  exists w.
  split; [rewrite Hrun; do 2 f_equal; now apply Hiff|].
  split; [exact Hfail|].
  exact (Hstop Hfail).
Defined.

Lemma persisted_documents_content_witness :
  exists w v,
    main_primal_dual new_ocp initialize dyn_press ideal_solve clock 35
      = Some (w, Ok v) /\
    exists out pickled recorded,
      last_output w = Some out /\
      dumps w =
        [(pickle_path, pickled);
         (json_path, PDict [("t", PArr1 (sol_time out));
                            ("xp", PArr2 (sol_xp out));
                            ("z", PArr2 (sol_z out))])] /\
      getitem "optimal_solution" pickled = Some v /\
      getitem "initial_solution" pickled
        = Some (initial_solution (enter new_ocp initialize eps_0)) /\
      getitem "time" v = Some (PArr1 (sol_time out)) /\
      getitem "xp" v = Some (PArr2 (sol_xp out)) /\
      getitem "z" v = Some (PArr2 (sol_z out)) /\
      getitem "eps" v = Some (PFloat recorded) /\
      recorded == last (solve_eps w) 0 /\
      getitem "alpha" v = Some (PFloat alpha) /\
      getitem "exec_time" v = Some (PFloat (elapsed w)) /\
      getitem "iter" v = Some (PInt (Z.of_nat (length (solves w)))).
Proof.
  do 2 eexists. split.
  - vm_compute. reflexivity.
  - apply (persisted_documents_content
             new_ocp initialize dyn_press ideal_solve clock 35).
    vm_compute. reflexivity.
Defined.

Lemma loop_terminates_one_pass_after_bound_witness :
  (35 <= 35)%nat /\
  exists w v,
    main_primal_dual new_ocp initialize dyn_press ideal_solve clock 35
      = Some (w, Ok v) /\
    existsb failed w = false /\
    forallb readable (outputs w) = true /\
    iteration_bound = 34%Z /\
    Z.of_nat (length (solves w)) = (iteration_bound + 1)%Z /\
    getitem "iter" v = Some (PInt (iteration_bound + 1)).
Proof.
  split; [lia|].
  destruct (loop_terminates_one_pass_after_bound
              new_ocp initialize dyn_press ideal_solve clock 35 (le_n 35))
    as (w & r & Hrun & Hb & _ & Hok & Hret).
  pose proof Hrun as E. vm_compute in E. injection E as Ew Er.
  assert (Hfail : existsb failed w = false)
    by (rewrite <- Ew; vm_compute; reflexivity).
  assert (Hread : forallb readable (outputs w) = true)
    by (rewrite <- Ew; vm_compute; reflexivity).
  destruct (Hret Hfail Hread) as (v & Hv).
  exists w, v.
  split; [now rewrite Hrun, Hv|].
  split; [exact Hfail|]. split; [exact Hread|]. split; [exact Hb|].
  exact (Hok v Hv).
Defined.

Lemma continuation_parameter_is_geometric_witness :
  (35 <= 36)%nat /\
  exists w v,
    main_primal_dual new_ocp initialize dyn_press ideal_solve clock 36
      = Some (w, Ok v) /\
    existsb failed w = false /\
    forallb readable (outputs w) = true /\
    length (solve_eps w) = 35%nat /\
    (forall k, (k < length (solve_eps w))%nat ->
       nth k (solve_eps w) 0 == eps_0 * alpha ^ Z.of_nat k) /\
    (forall k, (S k < length (solve_eps w))%nat ->
       nth (S k) (solve_eps w) 0 == nth k (solve_eps w) 0 * alpha /\
       nth (S k) (solve_eps w) 0 < nth k (solve_eps w) 0) /\
    (forall k, (S k < length (solve_eps w))%nat ->
       Qle_bool (nth k (solve_eps w) 0) tol = false) /\
    Qle_bool (nth 34 (solve_eps w) 0) tol = true.
Proof.
  split; [lia|].
  destruct (continuation_parameter_is_geometric
              new_ocp initialize dyn_press ideal_solve clock 36)
    as (w & r & Hrun & _ & Hpow & Hdec & Habove & Hok & Hret); [lia|].
  pose proof Hrun as E. vm_compute in E. injection E as Ew Er.
  assert (Hfail : existsb failed w = false)
    by (rewrite <- Ew; vm_compute; reflexivity).
  assert (Hread : forallb readable (outputs w) = true)
    by (rewrite <- Ew; vm_compute; reflexivity).
  destruct (Hret Hfail Hread) as (v & Hv).
  destruct (Hok v Hv) as [H35 Hlast].
  exists w, v.
  split; [now rewrite Hrun, Hv|].
  repeat (split; [assumption|]). exact Hlast.
Defined.


Lemma recorded_eps_is_eps_of_final_solve_witness :
  exists w v,
    main_primal_dual new_ocp initialize dyn_press ideal_solve clock 35
      = Some (w, Ok v) /\
    exists st w0 pickled recorded,
      while_loop dyn_press ideal_solve clock alpha tol 35
        (enter new_ocp initialize eps_0) [] = Some (w0, Ok st) /\
      In (pickle_path, pickled) (dumps w) /\
      getitem "optimal_solution" pickled = Some v /\
      getitem "eps" v = Some (PFloat recorded) /\
      recorded = eps st / alpha /\
      recorded == last (solve_eps w) 0 /\
      eps st == last (solve_eps w) 0 * alpha /\
      ocp_eps (ocp st) = eps st.
Proof.
  do 2 eexists. split.
  - vm_compute. reflexivity.
  - apply (recorded_eps_is_eps_of_final_solve
             new_ocp initialize dyn_press ideal_solve clock 35).
    vm_compute. reflexivity.
Defined.

End DriverRuns.

(** ** Further properties of the Zermelo contract *)

Section ZermeloMore.
Import Numpy ZermeloPrimalOCP Calculus.
Local Open Scope R_scope.

(** The second-order branches of [state_constraint] are the derivatives of
    its first-order branches, in both variables, and the second partial
    derivatives of its value branch; the mixed branch, which falls through
    to [np.zeros_like], is the cross derivative. *)
Theorem state_constraint_second_derivative_branches (e x0 x1 : R) :
  let self := set_eps init e in
  derivable_pt_lim (fun t => state_constraint self t x1 1 0) x0
    (state_constraint self x0 x1 2 0) /\
  derivable_pt_lim (fun t => state_constraint self x0 t 0 1) x1
    (state_constraint self x0 x1 0 2) /\
  derivable_pt_lim (fun t => state_constraint self x0 t 1 0) x1
    (state_constraint self x0 x1 1 1) /\
  derivable_pt_lim (fun t => state_constraint self t x1 0 1) x0
    (state_constraint self x0 x1 1 1) /\
  derivable_pt_lim (fun t => - 2 * (t - item (center self) 0) / a1 self ^ 2) x0
    (state_constraint self x0 x1 2 0) /\
  derivable_pt_lim (fun t => - 2 * (t - item (center self) 1) / a2 self ^ 2) x1
    (state_constraint self x0 x1 0 2).
Proof.
  intros self.
  repeat match goal with |- _ /\ _ => split end;
    match goal with
    | |- derivable_pt_lim ?f ?x ?l =>
        apply affine_derivative with (c := f x - l * x); intros; cbn;
          field; lra
    end.
Qed.

(** The samples of [linspace]. *)
Lemma nth_linspace (start stop : R) (num k : nat) :
  (k < num)%nat ->
  nth k (linspace start stop num) 0 =
  start + INR k * ((stop - start) / INR (num - 1)).
Proof.
  intros Hk. unfold linspace.
  set (f := fun i : nat => start + INR i * ((stop - start) / INR (num - 1))).
  rewrite (nth_indep _ 0 (f 0%nat)) by (now rewrite length_map, length_seq).
  rewrite map_nth, seq_nth by assumption. reflexivity.
Qed.

Lemma nth_full (n k : nat) (v : R) : (k < n)%nat -> nth k (full n v) 0 = v.
Proof.
  intros Hk. unfold full.
  rewrite (nth_indep _ 0 v) by (now rewrite repeat_length).
  apply nth_repeat.
Qed.

(** What [initialize] returns, row by row. *)
Lemma initialize_rows (e : R) :
  initialize (set_eps init e) =
  Some (linspace 0 1 101,
        [linspace 0 20 101; linspace 0 0.6 25 ++ linspace 0.6 1 76;
         full 101 10; full 101 0; full 101 0; full 101 1.0],
        [full 101 (PI / 2); full 101 0.5]).
Proof. reflexivity. Qed.

Lemma INR_literal (n : nat) : INR n = IZR (Z.of_nat n).
Proof. apply INR_IZR_INZ. Qed.

(** The value branch of [state_constraint] with the constants of
    [__init__] put in. *)
Lemma state_constraint_value (e x0 x1 : R) :
  state_constraint (set_eps init e) x0 x1 0 0 =
  4 - (x0 - 10) * (x0 - 10) / 4 - 100 * ((x1 - 0.4) * (x1 - 0.4)).
Proof. cbn. first [lra | field; repeat split; lra]. Qed.

(** The initial guess is strictly inside the admissible set at each of its
    101 samples: [state_constraint] is negative at the guessed position,
    and the guessed controls lie strictly between their bounds; the five
    quantities below are the expressions that [ode] and [algeq] hand to
    [log_pen]. *)
Theorem initial_guess_strictly_feasible (e : R) (k : nat) :
  (k < 101)%nat ->
  let self := set_eps init e in
  exists time xp z,
    initialize self = Some (time, xp, z) /\
    state_constraint self (entry xp 0 k) (entry xp 1 k) 0 0 < 0 /\
    entry z 0 k - u0max self < 0 /\ u0min self - entry z 0 k < 0 /\
    entry z 1 k - u1max self < 0 /\ u1min self - entry z 1 k < 0.
Proof.
  intros Hk self. do 3 eexists.
  split; [apply initialize_rows|].
  unfold entry. cbn [nth].
  rewrite nth_linspace, !nth_full by assumption.
  pose proof PI_RGT_0 as Hpi.
  split; [|cbn; repeat split; lra].
  unfold self. rewrite state_constraint_value.
  rewrite (INR_literal (101 - 1)). cbn [Nat.sub Z.of_nat Pos.of_succ_nat Pos.succ].
  set (x := INR k).
  assert (H0 : 0 <= x) by apply pos_INR.
  set (A := 0 + x * ((20 - 0) / 100)).
  assert (HA : A = x / 5) by (unfold A; field).
  destruct (le_lt_dec 25 k) as [Hge|Hlt].
  - rewrite app_nth2 by (rewrite linspace_length; lia).
    rewrite linspace_length, nth_linspace by lia.
    rewrite (INR_literal (76 - 1)).
    cbn [Nat.sub Z.of_nat Pos.of_succ_nat Pos.succ].
    assert (Hd : INR (k - 25) = x - 25)
      by (unfold x; rewrite minus_INR by lia; rewrite (INR_literal 25); cbn; lra).
    rewrite Hd.
    assert (H25 : 25 <= x)
      by (unfold x; apply le_INR in Hge; rewrite (INR_literal 25) in Hge;
          cbn in Hge; lra).
    set (B := 0.6 + (x - 25) * ((1 - 0.6) / 75)).
    assert (HB : B - 0.4 = 0.2 + (x - 25) * (2 / 375)) by (unfold B; lra).
    assert (Hb : 0.2 <= B - 0.4) by (rewrite HB; lra).
    destruct (Rlt_le_dec x 50) as [Hx|Hx].
    + assert (Ha : A - 10 < 0) by (rewrite HA; lra).
      nra.
    + assert (Hb' : 0.2 < B - 0.4) by (rewrite HB; lra).
      nra.
  - rewrite app_nth1 by (rewrite linspace_length; lia).
    rewrite nth_linspace by lia.
    assert (H24 : x <= 24)
      by (unfold x; assert (k <= 24)%nat as Hk' by lia; apply le_INR in Hk';
          rewrite (INR_literal 24) in Hk'; cbn in Hk'; lra).
    assert (Ha : A - 10 <= - 5) by (rewrite HA; lra).
    set (B := 0 + _ * ((0.6 - 0) / INR (25 - 1))).
    clearbody A B.
    assert (Hsa : 25 <= (A - 10) * (A - 10)) by nra.
    assert (Hsb : 0 <= (B - 0.4) * (B - 0.4)) by exact (Rle_0_sqr (B - 0.4)).
    set (sa := (A - 10) * (A - 10)) in *.
    set (sb := (B - 0.4) * (B - 0.4)) in *.
    lra.
Qed.

(** [twobc] vanishes exactly on the boundary conditions of the problem:
    the position starts at [x0] and ends at [xfinal], the last entry is
    zero at the start and one at the end. *)
Theorem twobc_vanishes_iff (e : R) (xp0 xpT z0 zT : list R) :
  length xp0 = 6%nat -> length xpT = 6%nat ->
  let self := set_eps init e in
  twobc self xp0 xpT z0 zT = Some (zeros 6) <->
  nth 0 xp0 0 = item (x0 self) 0 /\ nth 1 xp0 0 = item (x0 self) 1 /\
  nth 0 xpT 0 = item (xfinal self) 0 /\ nth 1 xpT 0 = item (xfinal self) 1 /\
  nth 5 xp0 0 = 0 /\ nth 5 xpT 0 = 1.
Proof.
  intros L0 LT self.
  destruct xp0 as [|a0 [|a1 [|a2 [|a3 [|a4 [|a5 [|]]]]]]]; try discriminate.
  destruct xpT as [|b0 [|b1 [|b2 [|b3 [|b4 [|b5 [|]]]]]]]; try discriminate.
  cbn. split.
  - intros H. inversion H. repeat split; lra.
  - intros (H0 & H1 & H2 & H3 & H4 & H5). do 7 f_equal; lra.
Qed.

(** Assignments keep the length of the array and raise out of range. *)
Lemma set_at_length {A} (i : nat) (v : A) (a a' : list A) :
  set_at i v a = Some a' -> length a' = length a.
Proof.
  revert i a'. induction a as [|x a IH]; intros i a';
    [destruct i; cbn; discriminate|].
  destruct i as [|i]; cbn.
  - intros H. inversion H. reflexivity.
  - destruct (set_at i v a) as [r|] eqn:E; [|discriminate].
    intros H. inversion H. cbn. f_equal. eapply IH, E.
Qed.

Lemma set_at_None {A} (i : nat) (v : A) (a : list A) :
  (length a <= i)%nat -> set_at i v a = None.
Proof.
  revert i. induction a as [|x a IH]; intros i Hi; [now destruct i|].
  destruct i as [|i]; cbn in *; [lia|].
  rewrite IH by lia. reflexivity.
Qed.

Lemma set_slice_length {A} (lo hi : nat) (v a a' : list A) :
  set_slice lo hi v a = Some a' -> length a' = length a.
Proof.
  unfold set_slice, slice.
  destruct (Nat.eqb _ _) eqn:E; [|discriminate].
  apply Nat.eqb_eq in E. rewrite length_firstn, length_skipn in E.
  intros H. inversion H.
  rewrite !length_app, length_firstn, length_skipn. lia.
Qed.

(** [twobc] raises whenever [xp0] has fewer than six entries, whatever the
    other arguments are. *)
Theorem twobc_rejects_short_state (e : R) (xp0 xpT z0 zT : list R) :
  (length xp0 < 6)%nat ->
  twobc (set_eps init e) xp0 xpT z0 zT = None.
Proof.
  intros L0. unfold twobc.
  destruct (vsub (slice 0 2 xp0) _) as [d0|]; [|reflexivity].
  destruct (set_slice 0 2 d0 _) as [bc1|] eqn:E1; [|reflexivity].
  destruct (vsub (slice 0 2 xpT) _) as [dT|]; [|reflexivity].
  destruct (set_slice 2 4 dT bc1) as [bc2|] eqn:E2; [|reflexivity].
  destruct (get_last xp0) as [l0|]; [|reflexivity].
  destruct (set_at 4 l0 bc2) as [bc3|] eqn:E3; [|reflexivity].
  destruct (get_last xpT) as [lT|]; [|reflexivity].
  rewrite set_at_None; [reflexivity|].
  apply set_at_length in E3. apply set_slice_length in E2.
  apply set_slice_length in E1.
  rewrite E3, E2, E1.
  unfold zeros_like, full_like, full. rewrite repeat_length. lia.
Qed.

End ZermeloMore.

(** ** Further properties of the continuation driver *)

Section DriverMore.
Import GoddardMain Continuation Warmstart.
Local Open Scope string_scope.
Local Open Scope list_scope.
Local Open Scope Q_scope.

Variable new_ocp : GoddardPrimalDual.
Variable initialize : GoddardPrimalDual -> array1 * array2 * array2.
Variable dyn_press : GoddardPrimalDual -> array1 -> array1 -> array1.
Variable solve : nat -> BVPSol -> GoddardPrimalDual -> BVPSol * Infos.
Variable clock : nat -> Q.

Local Abbreviation body := (GoddardMain.body dyn_press solve clock).
Local Abbreviation while_loop := (GoddardMain.while_loop dyn_press solve clock).
Local Abbreviation enter := (GoddardMain.enter new_ocp initialize).
Local Abbreviation main_primal_dual_from :=
  (GoddardMain.main_primal_dual_from new_ocp initialize dyn_press solve clock).
Local Abbreviation main_primal_dual :=
  (GoddardMain.main_primal_dual new_ocp initialize dyn_press solve clock).

(** *** Warm starts *)

Lemma chained_app (p : BVPSol) (w1 w2 : world) :
  chained p (w1 ++ w2) <->
  chained p w1 /\
  forall q, last_output_from (Some p) w1 = Some q -> chained q w2.
Proof.
  revert p. induction w1 as [|e w1 IH]; intros p.
  - cbn. split.
    + intros H. split; [exact I|]. intros q Hq.
      injection Hq as <-. exact H.
    + intros [_ H]. apply H. reflexivity.
  - destruct e; cbn; rewrite ?IH; tauto.
Qed.

Lemma chained_solves (p : BVPSol) (w : world) :
  chained p w <-> chained p (solves w).
Proof.
  revert p. induction w as [|e w IH]; intros p; [reflexivity|].
  destruct e; cbn; rewrite ?IH; reflexivity.
Qed.

Lemma chain_inv_enter (eps0 : Q) :
  chain_inv (initial_guess new_ocp initialize eps0) (enter eps0) [].
Proof.
  unfold chain_inv, initial_guess, GoddardMain.enter.
  destruct (initialize _) as [[t x] zz]. split; reflexivity.
Qed.

Lemma chain_inv_pass (g : BVPSol) (alpha tol : Q) (st : locals)
  (w w' : world) (r : result locals) :
  chain_inv g st w ->
  pass_spec alpha tol st w w' r ->
  chained g w' /\
  match r with
  | Ok st' => chain_inv g st' w'
  | Raise _ => True
  end.
Proof.
  intros [Hc Hl]
    (evs & out & infos & ts0 & ts1 & -> & Hs & _ & _ & _ & _ & Hlo & Hr).
  assert (Hc' : chained g (w ++ evs)).
  { apply chained_app. split; [exact Hc|].
    intros q Hq. rewrite Hl in Hq. injection Hq as <-.
    apply <- chained_solves. rewrite Hs. cbn. auto. }
  split; [exact Hc'|].
  destruct r as [st'|e]; [|exact I].
  split; [exact Hc'|].
  rewrite last_output_from_app, Hlo.
  destruct Hr as (_ & _ & _ & _ & _ & _ & -> & _). reflexivity.
Qed.

Lemma while_loop_chained (g : BVPSol) (alpha tol : Q) (fuel : nat) :
  forall (st : locals) (w w' : world) (r : result locals),
    chain_inv g st w ->
    while_loop alpha tol fuel st w = Some (w', r) ->
    chained g w'.
Proof.
  induction fuel as [|fuel IH]; intros st w w' r Hinv;
    rewrite ?while_loop_O, ?while_loop_S;
    destruct (convergence st) eqn:Hc;
    try (intros H; inversion H; subst; now destruct Hinv);
    try discriminate.
  destruct (body alpha tol st w) as [w1 [st1|e]] eqn:Hb;
    apply body_inv in Hb;
    destruct (chain_inv_pass _ _ _ _ _ _ _ Hinv Hb) as [Hc' Hst].
  - apply IH. exact Hst.
  - intros H; inversion H; subst. exact Hc'.
Qed.

(** The first solve of a run starts from the initial guess of the contract,
    and every later solve starts from the trajectory that the solve before
    it handed back; this holds of every run that ends, however it ends. *)
Theorem solves_are_warm_started (fuel : nat) (w : world) (r : result pyobj) :
  main_primal_dual fuel = Some (w, r) ->
  chained (initial_guess new_ocp initialize eps_0) w.
Proof.
  unfold GoddardMain.main_primal_dual.
  rewrite main_primal_dual_from_eq.
  destruct (while_loop alpha tol fuel (enter eps_0) [])
    as [[w0 [st|e]]|] eqn:Hloop; try discriminate;
    apply (while_loop_chained (initial_guess new_ocp initialize eps_0))
      in Hloop; try apply chain_inv_enter.
  - destruct (finish alpha (initial_solution (enter eps_0)) st w0)
      as [w1 r1] eqn:Hfin.
    intros H; inversion H; subst; clear H.
    apply finish_inv in Hfin.
    destruct Hfin as (evs & -> & Hs & _).
    apply <- chained_solves. rewrite solves_app, Hs, app_nil_r.
    apply -> chained_solves. exact Hloop.
  - intros H; inversion H; subst. exact Hloop.
Qed.

(** *** A failure ends the run *)

Lemma existsb_failed_solves (w : world) :
  existsb failed (solves w) = existsb failed w.
Proof.
  unfold solves. induction w as [|e w IH]; [reflexivity|].
  destruct e; cbn; now rewrite ?IH.
Qed.

Lemma while_loop_raise_split (eps0 alpha tol : Q) (fuel : nat) :
  forall (st : locals) (w w' : world) (e : exn),
    loop_inv eps0 alpha tol st w ->
    while_loop alpha tol fuel st w = Some (w', Raise e) ->
    exists w0 ev, solves w' = solves w0 ++ [ev] /\ existsb failed w0 = false.
Proof.
  induction fuel as [|fuel IH]; intros st w w' e Hinv;
    rewrite ?while_loop_O, ?while_loop_S;
    destruct (convergence st) eqn:Hc; try discriminate.
  destruct (body alpha tol st w) as [w1 [st1|e1]] eqn:Hb;
    apply body_inv in Hb.
  - apply IH. eapply loop_inv_pass; eauto.
  - intros H; inversion H; subst; clear H.
    destruct Hinv as (_ & Hf & _).
    destruct Hb as (evs & out & infos & ts0 & ts1 & -> & Hs & _).
    exists w, (ESolve (bvp_sol st) (ocp st) out infos).
    split; [|exact Hf]. now rewrite solves_app, Hs.
Qed.

(** In a run that ends, no solve but the last one reported failure: the
    driver never calls the solver again after a failed solve. *)
Theorem only_the_last_solve_can_fail (fuel : nat) (w : world)
  (r : result pyobj) :
  main_primal_dual fuel = Some (w, r) ->
  exists earlier final,
    solves w = earlier ++ [final] /\ existsb failed earlier = false.
Proof.
  intros Hrun. pose proof Hrun as Hfacts. apply run_facts in Hfacts.
  destruct Hfacts as [(Hn & _) Hr].
  destruct r as [v|e].
  - destruct Hr as (st & w0 & _ & Hf & _).
    destruct (exists_last (l := solves w)) as (earlier & final & E).
    { intros E. rewrite E in Hn. cbn in Hn. lia. }
    exists earlier, final. split; [exact E|].
    rewrite <- existsb_failed_solves, E, existsb_app in Hf.
    now apply orb_false_elim in Hf.
  - revert Hrun. unfold GoddardMain.main_primal_dual.
    rewrite main_primal_dual_from_eq.
    destruct (while_loop alpha tol fuel (enter eps_0) [])
      as [[w0 [st|e0]]|] eqn:Hloop; try discriminate.
    + destruct (finish alpha (initial_solution (enter eps_0)) st w0)
        as [w1 r1] eqn:Hfin.
      intros H; inversion H; subst; clear H.
      apply (while_loop_inv dyn_press solve clock eps_0) in Hloop;
        [|apply loop_inv_enter].
      destruct Hloop as [(_ & Hf & _) _].
      apply finish_inv in Hfin.
      destruct Hfin as (evs & -> & Hs & _).
      destruct (exists_last (l := solves (w0 ++ evs)))
        as (earlier & final & E).
      { intros E. rewrite E in Hn. cbn in Hn. lia. }
      exists earlier, final. split; [exact E|].
      rewrite solves_app, Hs, app_nil_r in E.
      rewrite <- existsb_failed_solves, E, existsb_app in Hf.
      now apply orb_false_elim in Hf.
    + intros H; inversion H; subst; clear H.
      apply (while_loop_raise_split eps_0) in Hloop;
        [|apply loop_inv_enter].
      destruct Hloop as (w0 & ev & E & Hf).
      exists (solves w0), ev. split; [exact E|].
      now rewrite existsb_failed_solves.
Qed.

(** *** The plotted sequences *)

Lemma plot_sequences_app (w1 w2 : world) :
  plot_sequences (w1 ++ w2) = plot_sequences w1 ++ plot_sequences w2.
Proof.
  induction w1 as [|e w1 IH]; [reflexivity|].
  destruct e; cbn; now rewrite ?IH.
Qed.

Lemma printed_app (w1 w2 : world) :
  printed (w1 ++ w2) = printed w1 ++ printed w2.
Proof.
  induction w1 as [|e w1 IH]; [reflexivity|].
  destruct e; cbn; now rewrite ?IH.
Qed.

(** A pass that completes appends one curve to each sequence and plots
    nothing. *)
Lemma body_sequences (alpha tol : Q) (st st' : locals) (w w' : world)
  (n : nat) :
  body alpha tol st w = (w', Ok st') ->
  sequences_have n st ->
  sequences_have (S n) st' /\ plot_sequences w' = plot_sequences w.
Proof.
  unfold GoddardMain.body, bind, print, emit, dtime, call_solve,
    item2, row, index, bind, ret, raise, sequences_have.
  destruct (solve _ _ _) as [out infos] eqn:Hs. cbn -[nth_error].
  destruct (success infos) eqn:Hsucc; cbn -[nth_error];
    repeat match goal with
      | |- context [nth_error ?a ?i] =>
          destruct (nth_error a i) eqn:?; cbn -[nth_error]
      end;
    intros H; inversion H; subst; clear H.
  intros (? & ? & ? & ? & ? & ? & ? & ? & ? & ? & ? & ?).
  cbn. rewrite !length_app, !plot_sequences_app. cbn.
  rewrite !app_nil_r.
  repeat split; lia.
Qed.

Lemma while_loop_sequences (alpha tol : Q) (fuel : nat) :
  forall (st st' : locals) (w w' : world),
    sequences_have (length (solves w)) st ->
    plot_sequences w = [] ->
    while_loop alpha tol fuel st w = Some (w', Ok st') ->
    sequences_have (length (solves w')) st' /\ plot_sequences w' = [].
Proof.
  induction fuel as [|fuel IH]; intros st st' w w' Hseq Hplot;
    rewrite ?while_loop_O, ?while_loop_S;
    destruct (convergence st) eqn:Hc;
    try (intros H; inversion H; subst; now split);
    try discriminate.
  destruct (body alpha tol st w) as [w1 [st1|e]] eqn:Hb; [|discriminate].
  destruct (body_sequences _ _ _ _ _ _ _ Hb Hseq) as [Hseq1 Hplot1].
  apply body_calls_solver in Hb. destruct Hb as [Hn _].
  apply IH; [now rewrite Hn | congruence].
Qed.

Lemma enter_sequences (eps0 : Q) : sequences_have 0 (enter eps0).
Proof.
  unfold GoddardMain.enter. destruct (initialize _) as [[? ?] ?].
  repeat split.
Qed.

(** What [finish] plots and prints when it completes. *)
Lemma finish_plots (alpha : Q) (initial : pyobj) (st : locals) (w w' : world)
  (v : pyobj) :
  finish alpha initial st w = (w', Ok v) ->
  plot_sequences w' =
    plot_sequences w ++
    [("$\mu(t)$", times st, mus st); ("$\eta_1(t)$", times st, nups st);
     ("$\eta_2(t)$", times st, nums st); ("$p_3(t)$", times st, p3s st);
     ("$p_2(t)$", times st, p2s st); ("$p_1(t)$", times st, p1s st);
     ("$q(t)$", times st, qs st); ("$u(t)$", times st, us st);
     ("$m(t)$", times st, ms st); ("$v(t)$", times st, vs st);
     ("$h(t)$", times st, hs st)] /\
  In [PStr "Number of iterations = "; PInt (Z.of_nat (length (times st)))]
    (printed w').
Proof.
  unfold finish, truediv, bind, print, emit, item2, item2_last, row, index,
    bind, ret, raise.
  destruct (Qeq_bool alpha 0) eqn:Ha; cbn -[nth_error Numpy.get_last];
    [discriminate|].
  repeat match goal with
    | |- context [nth_error ?a ?i] =>
        destruct (nth_error a i) eqn:?; cbn -[nth_error Numpy.get_last]
    | |- context [Numpy.get_last ?a] =>
        destruct (Numpy.get_last a) eqn:?; cbn -[nth_error Numpy.get_last]
    end;
    intros H; inversion H; subst; clear H.
  rewrite <- !app_assoc. cbn [app].
  rewrite plot_sequences_app, printed_app. cbn.
  split; [reflexivity|].
  apply in_or_app. right. cbn. tauto.
Qed.

(** When the run returns, [plot_sequence] has been called eleven times, in
    the order of the source, and each of the sequences it was handed holds
    one curve per solve; the number of solves is also what is stored under
    [iter] and what is printed as the number of iterations. *)
Theorem plotted_sequences_match_iterations (fuel : nat) (w : world)
  (v : pyobj) :
  main_primal_dual fuel = Some (w, Ok v) ->
  let n := length (solves w) in
  getitem "iter" v = Some (PInt (Z.of_nat n)) /\
  map (fun p => fst (fst p)) (plot_sequences w) =
    ["$\mu(t)$"; "$\eta_1(t)$"; "$\eta_2(t)$"; "$p_3(t)$"; "$p_2(t)$";
     "$p_1(t)$"; "$q(t)$"; "$u(t)$"; "$m(t)$"; "$v(t)$"; "$h(t)$"] /\
  Forall (fun p => length (snd (fst p)) = n /\ length (snd p) = n)
    (plot_sequences w) /\
  In [PStr "Number of iterations = "; PInt (Z.of_nat n)] (printed w).
Proof.
  intros Hrun n. pose proof Hrun as Hfacts. apply run_facts in Hfacts.
  destruct Hfacts as [_ (st & w0 & Hloop & Hret)].
  destruct Hret as (_ & _ & _ & _ & _ & Hi & _ & _ & Hv & _).
  revert Hrun. unfold GoddardMain.main_primal_dual.
  rewrite main_primal_dual_from_eq, Hloop. intros Hfin.
  injection Hfin as Hfin.
  apply while_loop_sequences in Hloop;
    [|apply enter_sequences | reflexivity].
  destruct Hloop as [Hseq Hplot].
  pose proof Hfin as Hev. apply finish_inv in Hev.
  destruct Hev as (evs & Hw & Hs & _).
  assert (Hn : length (solves w0) = n).
  { unfold n. rewrite Hw, solves_app, Hs, app_nil_r. reflexivity. }
  rewrite Hn in Hseq.
  apply finish_plots in Hfin. destruct Hfin as [Hp Hpr].
  destruct Hseq as (H1 & H2 & H3 & H4 & H5 & H6 & H7 & H8 & H9 & H10 & H11
                    & H12).
  rewrite Hp, Hplot. rewrite H1 in Hpr.
  split; [rewrite Hv; cbn; now rewrite Hi|].
  split; [reflexivity|].
  split; [|exact Hpr].
  cbn. repeat constructor; cbn; assumption.
Qed.

(** *** Trajectories of the wrong shape *)


(** *** What the timer measures *)







End DriverMore.

(** ** Dynamics and stationarity of the Zermelo contract *)

Section ZermeloDynamicsFacts.
Import Numpy ZermeloPrimalOCP ZermeloDynamics Calculus.
Local Open Scope R_scope.

(** *** Rules of differentiation on functions given by their body *)

Lemma D_eq (f : R -> R) (x l l' : R) :
  derivable_pt_lim f x l' -> l' = l -> derivable_pt_lim f x l.
Proof. now intros H <-. Qed.

Lemma D_const (c x : R) : derivable_pt_lim (fun _ => c) x 0.
Proof. apply derivable_pt_lim_const. Qed.

Lemma D_id (x : R) : derivable_pt_lim (fun t => t) x 1.
Proof. apply derivable_pt_lim_id. Qed.

Lemma D_plus (f g : R -> R) (x l1 l2 : R) :
  derivable_pt_lim f x l1 -> derivable_pt_lim g x l2 ->
  derivable_pt_lim (fun t => f t + g t) x (l1 + l2).
Proof. apply derivable_pt_lim_plus. Qed.

Lemma D_minus (f g : R -> R) (x l1 l2 : R) :
  derivable_pt_lim f x l1 -> derivable_pt_lim g x l2 ->
  derivable_pt_lim (fun t => f t - g t) x (l1 - l2).
Proof. apply derivable_pt_lim_minus. Qed.

Lemma D_opp (f : R -> R) (x l : R) :
  derivable_pt_lim f x l -> derivable_pt_lim (fun t => - f t) x (- l).
Proof. apply derivable_pt_lim_opp. Qed.

Lemma D_mult (f g : R -> R) (x l1 l2 : R) :
  derivable_pt_lim f x l1 -> derivable_pt_lim g x l2 ->
  derivable_pt_lim (fun t => f t * g t) x (l1 * g x + f x * l2).
Proof. apply derivable_pt_lim_mult. Qed.

Lemma D_cos (f : R -> R) (x l : R) :
  derivable_pt_lim f x l ->
  derivable_pt_lim (fun t => cos (f t)) x (- sin (f x) * l).
Proof.
  intros Hf.
  apply (derivable_pt_lim_comp f cos x l (- sin (f x)) Hf).
  apply derivable_pt_lim_cos.
Qed.

Lemma D_sin (f : R -> R) (x l : R) :
  derivable_pt_lim f x l ->
  derivable_pt_lim (fun t => sin (f t)) x (cos (f x) * l).
Proof.
  intros Hf.
  apply (derivable_pt_lim_comp f sin x l (cos (f x)) Hf).
  apply derivable_pt_lim_sin.
Qed.

Variable log_pen : R -> Z -> R.

Lemma D_comp (f g : R -> R) (x l1 l2 : R) :
  derivable_pt_lim f x l1 -> derivable_pt_lim g (f x) l2 ->
  derivable_pt_lim (fun t => g (f t)) x (l2 * l1).
Proof. apply derivable_pt_lim_comp. Qed.

(** Differentiates a body built from constants, the variable, sums,
    differences, products, [cos] and [sin]; the derivative found is
    compared with the one asked for as polynomials. *)
Ltac deriv_step :=
  lazymatch goal with
  | |- derivable_pt_lim (fun _ => ?c) _ _ => apply D_const
  | |- derivable_pt_lim (fun t => t) _ _ => apply D_id
  | |- derivable_pt_lim (fun t => _ + _) _ _ => eapply D_plus
  | |- derivable_pt_lim (fun t => _ - _) _ _ => eapply D_minus
  | |- derivable_pt_lim (fun t => _ * _) _ _ => eapply D_mult
  | |- derivable_pt_lim (fun t => - _) _ _ => eapply D_opp
  | |- derivable_pt_lim (fun t => cos _) _ _ => eapply D_cos
  | |- derivable_pt_lim (fun t => sin _) _ _ => eapply D_sin
  | |- derivable_pt_lim ?f ?x ?l =>
      lazymatch f with
      | (fun _ => _) => fail
      | _ => change (derivable_pt_lim (fun t => f t) x l); cbv beta
      end
  end.

Ltac deriv := eapply D_eq; [repeat deriv_step | cbn; try ring; try lra].

(** The same with [log_pen(., 1)] in the body, whose derivative at the
    points met is given by [H]. *)
Ltac deriv_pen H :=
  eapply D_eq;
  [repeat first
     [ deriv_step
     | lazymatch goal with
       | |- derivable_pt_lim (fun t => log_pen (@?F t) 1) ?x _ =>
           eapply (D_comp F (fun y => log_pen y 1));
           [|apply H; cbn; tauto]
       end ]
  | cbn; try ring; try lra].

(** At every sample, the blocks returned by [algjac] are the partial
    derivatives of [algeq] with respect to the entries of [xp] and of [z],
    provided that [log_pen(., 2)] is the derivative of [log_pen(., 1)] at
    the four arguments that [algeq] hands to it. *)
Theorem algjac_is_jacobian_of_algeq (e time : R) (xp z : list R) :
  length xp = 6%nat -> length z = 2%nat ->
  let self := set_eps init e in
  let u0 := nth 0 z 0 in
  let u1 := nth 1 z 0 in
  (forall a,
     In a [u0 - u0max self; u0min self - u0; u1 - u1max self; u1min self - u1] ->
     derivable_pt_lim (fun t => log_pen t 1) a (log_pen a 2)) ->
  exists dhdu gx gz,
    algeq log_pen self time xp z = Some dhdu /\ length dhdu = 2%nat /\
    algjac log_pen self time xp z = Some (gx, gz) /\
    is_jacobian (fun v => algeq log_pen self time v z) xp gx 2 6 /\
    is_jacobian (fun v => algeq log_pen self time xp v) z gz 2 2.
Proof.
  intros Lx Lz self u0 u1 Hlp.
  destruct (length6_inv _ Lx) as (a0 & a1 & a2 & a3 & a4 & a5 & ->).
  destruct (length2_inv _ Lz) as (c0 & c1 & ->).
  cbn in u0, u1. subst u0 u1.
  do 3 eexists.
  split; [cbn; reflexivity|].
  split; [reflexivity|].
  split; [cbn; reflexivity|].
  unfold is_jacobian.
  repeat match goal with |- _ /\ _ => split end;
    try (split; [reflexivity | repeat constructor]).
  - intros i j Hi Hj.
    destruct i as [|[|i]]; try lia;
    destruct j as [|[|[|[|[|[|j]]]]]]; try lia;
    cbn; deriv_pen Hlp.
  - intros i j Hi Hj.
    destruct i as [|[|i]]; try lia;
    destruct j as [|[|j]]; try lia;
    cbn; deriv_pen Hlp.
Qed.


(** At every sample, the entries of [jacx] outside rows 3 and 4 of its
    columns 0 and 1 are the partial derivatives of the entries of [ode]
    with respect to the entries of [xp], and the first five rows of [jacz]
    are the partial derivatives of the first five entries of [ode] with
    respect to the entries of [z]. *)
Theorem odejac_exact_entries (e time : R) (xp z : list R) :
  length xp = 6%nat -> length z = 2%nat ->
  let self := set_eps init e in
  exists dxpdt jacx jacz,
    ode log_pen self time xp z = Some dxpdt /\ length dxpdt = 6%nat /\
    odejac log_pen self time xp z = Some (jacx, jacz) /\
    has_shape jacx 6 6 /\ has_shape jacz 6 2 /\
    (forall i j, (i < 6)%nat -> (j < 6)%nat ->
       (i < 3 \/ i = 5 \/ 2 <= j)%nat ->
       derivable_pt_lim
         (fun t => component i (ode log_pen self time (upd j t xp) z))
         (nth j xp 0) (entry jacx i j)) /\
    (forall i j, (i < 5)%nat -> (j < 2)%nat ->
       derivable_pt_lim
         (fun t => component i (ode log_pen self time xp (upd j t z)))
         (nth j z 0) (entry jacz i j)).
Proof.
  intros Lx Lz self.
  destruct (length6_inv _ Lx) as (a0 & a1 & a2 & a3 & a4 & a5 & ->).
  destruct (length2_inv _ Lz) as (c0 & c1 & ->).
  do 3 eexists.
  split; [cbn; reflexivity|].
  split; [reflexivity|].
  split; [cbn; reflexivity|].
  split; [split; [reflexivity | repeat constructor]|].
  split; [split; [reflexivity | repeat constructor]|].
  split.
  - intros i j Hi Hj Hij.
    destruct i as [|[|[|[|[|[|i]]]]]]; try lia;
    destruct j as [|[|[|[|[|[|j]]]]]]; try lia;
    cbn; deriv.
  - intros i j Hi Hj.
    destruct i as [|[|[|[|[|i]]]]]; try lia;
    destruct j as [|[|j]]; try lia;
    cbn; deriv.
Qed.

(** The last row of [jacz] is left at zero by [odejac], whereas the last
    entry of [ode] depends on both controls, with the partial derivatives
    [p0 u1 sin u0 - p1 u1 cos u0] and [- p0 cos u0 - p1 sin u0]. *)
Theorem odejac_omits_controls_in_last_row (e time : R) (xp z : list R) :
  length xp = 6%nat -> length z = 2%nat ->
  let self := set_eps init e in
  let p0 := nth 3 xp 0 in
  let p1 := nth 4 xp 0 in
  let u0 := nth 0 z 0 in
  let u1 := nth 1 z 0 in
  exists jacx jacz,
    odejac log_pen self time xp z = Some (jacx, jacz) /\
    entry jacz 5 0 = 0 /\ entry jacz 5 1 = 0 /\
    derivable_pt_lim
      (fun t => component 5 (ode log_pen self time xp (upd 0 t z))) u0
      (p0 * u1 * sin u0 - p1 * u1 * cos u0) /\
    derivable_pt_lim
      (fun t => component 5 (ode log_pen self time xp (upd 1 t z))) u1
      (- p0 * cos u0 - p1 * sin u0).
Proof.
  intros Lx Lz self p0 p1 u0 u1.
  destruct (length6_inv _ Lx) as (a0 & a1 & a2 & a3 & a4 & a5 & ->).
  destruct (length2_inv _ Lz) as (c0 & c1 & ->).
  cbn in p0, p1, u0, u1. subst p0 p1 u0 u1.
  do 2 eexists.
  split; [cbn; reflexivity|].
  split; [reflexivity|].
  split; [reflexivity|].
  split; cbn; deriv.
Qed.

End ZermeloDynamicsFacts.

(** ** Instances of the further properties *)

Section MoreInstances.
Import Numpy ZermeloPrimalOCP ZermeloDynamics Calculus Linear.
Local Open Scope R_scope.

Lemma initial_guess_strictly_feasible_witness :
  (50 < 101)%nat /\
  let self := set_eps init 1 in
  exists time xp z,
    initialize self = Some (time, xp, z) /\
    state_constraint self (entry xp 0 50) (entry xp 1 50) 0 0 < 0 /\
    entry z 0 50 - u0max self < 0 /\ u0min self - entry z 0 50 < 0 /\
    entry z 1 50 - u1max self < 0 /\ u1min self - entry z 1 50 < 0.
Proof.
  split; [lia|].
  apply (initial_guess_strictly_feasible 1 50). lia.
Defined.

Lemma twobc_vanishes_iff_witness :
  length [0; 0; 0; 0; 0; 0] = 6%nat /\
  length [20; 1; 0; 0; 0; 1] = 6%nat /\
  let self := set_eps init 1 in
  let xp0 := [0; 0; 0; 0; 0; 0] in
  let xpT := [20; 1; 0; 0; 0; 1] in
  (twobc self xp0 xpT [0; 0] [0; 0] = Some (zeros 6) <->
   nth 0 xp0 0 = item (x0 self) 0 /\ nth 1 xp0 0 = item (x0 self) 1 /\
   nth 0 xpT 0 = item (xfinal self) 0 /\ nth 1 xpT 0 = item (xfinal self) 1 /\
   nth 5 xp0 0 = 0 /\ nth 5 xpT 0 = 1).
Proof.
  split; [reflexivity|]. split; [reflexivity|].
  apply (twobc_vanishes_iff 1 [0; 0; 0; 0; 0; 0] [20; 1; 0; 0; 0; 1]
           [0; 0] [0; 0]); reflexivity.
Defined.

Lemma twobc_rejects_short_state_witness :
  (length [0; 0; 0; 0; 1] < 6)%nat /\
  twobc (set_eps init 1) [0; 0; 0; 0; 1] [20; 1; 0; 0; 0; 1] [0; 0] [0; 0]
    = None.
Proof.
  split; [cbn; lia|].
  apply (twobc_rejects_short_state 1 [0; 0; 0; 0; 1] [20; 1; 0; 0; 0; 1]
           [0; 0] [0; 0]).
  cbn. lia.
Defined.

Lemma quadratic_pen_derivative (a : R) :
  derivable_pt_lim (fun t => quadratic_pen t 1) a (quadratic_pen a 2).
Proof. apply derivable_pt_lim_id. Qed.

Lemma algjac_is_jacobian_of_algeq_witness :
  length [0; 0; 1; 1; 1; 0] = 6%nat /\
  length [1; 0.5] = 2%nat /\
  let self := set_eps init 1 in
  let xp := [0; 0; 1; 1; 1; 0] in
  let z := [1; 0.5] in
  exists dhdu gx gz,
    algeq quadratic_pen self 0 xp z = Some dhdu /\ length dhdu = 2%nat /\
    algjac quadratic_pen self 0 xp z = Some (gx, gz) /\
    is_jacobian (fun v => algeq quadratic_pen self 0 v z) xp gx 2 6 /\
    is_jacobian (fun v => algeq quadratic_pen self 0 xp v) z gz 2 2.
Proof.
  split; [reflexivity|]. split; [reflexivity|].
  apply (algjac_is_jacobian_of_algeq quadratic_pen 1 0 [0; 0; 1; 1; 1; 0]
           [1; 0.5]); try reflexivity.
  intros a _. apply quadratic_pen_derivative.
Defined.

Lemma odejac_exact_entries_witness :
  length [0; 0; 1; 1; 1; 0] = 6%nat /\
  length [1; 0.5] = 2%nat /\
  let self := set_eps init 1 in
  let xp := [0; 0; 1; 1; 1; 0] in
  let z := [1; 0.5] in
  exists dxpdt jacx jacz,
    ode quadratic_pen self 0 xp z = Some dxpdt /\ length dxpdt = 6%nat /\
    odejac quadratic_pen self 0 xp z = Some (jacx, jacz) /\
    has_shape jacx 6 6 /\ has_shape jacz 6 2 /\
    (forall i j, (i < 6)%nat -> (j < 6)%nat ->
       (i < 3 \/ i = 5 \/ 2 <= j)%nat ->
       derivable_pt_lim
         (fun t => component i (ode quadratic_pen self 0 (upd j t xp) z))
         (nth j xp 0) (entry jacx i j)) /\
    (forall i j, (i < 5)%nat -> (j < 2)%nat ->
       derivable_pt_lim
         (fun t => component i (ode quadratic_pen self 0 xp (upd j t z)))
         (nth j z 0) (entry jacz i j)).
Proof.
  split; [reflexivity|]. split; [reflexivity|].
  apply (odejac_exact_entries quadratic_pen 1 0 [0; 0; 1; 1; 1; 0] [1; 0.5]);
    reflexivity.
Defined.

Lemma odejac_omits_controls_in_last_row_witness :
  length [0; 0; 1; 1; 1; 0] = 6%nat /\
  length [1; 0.5] = 2%nat /\
  let self := set_eps init 1 in
  let xp := [0; 0; 1; 1; 1; 0] in
  let z := [1; 0.5] in
  exists jacx jacz,
    odejac quadratic_pen self 0 xp z = Some (jacx, jacz) /\
    entry jacz 5 0 = 0 /\ entry jacz 5 1 = 0 /\
    derivable_pt_lim
      (fun t => component 5 (ode quadratic_pen self 0 xp (upd 0 t z))) 1
      (1 * 0.5 * sin 1 - 1 * 0.5 * cos 1) /\
    derivable_pt_lim
      (fun t => component 5 (ode quadratic_pen self 0 xp (upd 1 t z))) 0.5
      (- 1 * cos 1 - 1 * sin 1).
Proof.
  split; [reflexivity|]. split; [reflexivity|].
  apply (odejac_omits_controls_in_last_row quadratic_pen 1 0
           [0; 0; 1; 1; 1; 0] [1; 0.5]); reflexivity.
Defined.

End MoreInstances.

Section MoreRuns.
Import GoddardMain Continuation Warmstart Samples.
Local Open Scope string_scope.
Local Open Scope list_scope.
Local Open Scope Q_scope.

Lemma solves_are_warm_started_witness :
  exists w r,
    main_primal_dual new_ocp initialize dyn_press (fails_at 1) clock 2
      = Some (w, r) /\
    chained (initial_guess new_ocp initialize eps_0) w.
Proof.
  do 2 eexists. split.
  - vm_compute. reflexivity.
  - apply (solves_are_warm_started new_ocp initialize dyn_press (fails_at 1)
             clock 2 _ (Raise (Exception failure_message))).
    vm_compute. reflexivity.
Defined.

Lemma only_the_last_solve_can_fail_witness :
  exists w r,
    main_primal_dual new_ocp initialize dyn_press (fails_at 1) clock 2
      = Some (w, r) /\
    exists earlier final,
      solves w = earlier ++ [final] /\ existsb failed earlier = false.
Proof.
  do 2 eexists. split.
  - vm_compute. reflexivity.
  - apply (only_the_last_solve_can_fail new_ocp initialize dyn_press
             (fails_at 1) clock 2 _ (Raise (Exception failure_message))).
    vm_compute. reflexivity.
Defined.


Lemma plotted_sequences_match_iterations_witness :
  exists w v,
    main_primal_dual new_ocp initialize dyn_press ideal_solve clock 35
      = Some (w, Ok v) /\
    let n := length (solves w) in
    getitem "iter" v = Some (PInt (Z.of_nat n)) /\
    map (fun p => fst (fst p)) (plot_sequences w) =
      ["$\mu(t)$"; "$\eta_1(t)$"; "$\eta_2(t)$"; "$p_3(t)$"; "$p_2(t)$";
       "$p_1(t)$"; "$q(t)$"; "$u(t)$"; "$m(t)$"; "$v(t)$"; "$h(t)$"] /\
    Forall (fun p => length (snd (fst p)) = n /\ length (snd p) = n)
      (plot_sequences w) /\
    In [PStr "Number of iterations = "; PInt (Z.of_nat n)] (printed w).
Proof.
  do 2 eexists. split.
  - vm_compute. reflexivity.
  - apply (plotted_sequences_match_iterations new_ocp initialize dyn_press
             ideal_solve clock 35).
    vm_compute. reflexivity.
Defined.


End MoreRuns.
